(** * Verification of lowest_price_5star.js

    A shallow embedding of the pure helpers of [lowest_price_5star.js]
    (stay-window selection, price parsing, provider resolution, provider
    deduplication) and of the resource discipline of [findLowestPrice].

    Modelling conventions.
    - A JavaScript string is the list of its UTF-16 code units ([jsstr]).
    - A JavaScript number read by [parseFloat] from a decimal token is the
      exact decimal value of that token, in lowest terms ([Q]); the code only
      compares such numbers, and rounding to the nearest double is monotone.
    - A [Date] is its time value in milliseconds since the epoch ([Z]).
      Local time is UTC plus a fixed offset [tz] (milliseconds east of UTC);
      daylight-saving transitions are not modelled. The calendar functions
      follow the ECMAScript definitions (DayFromYear, YearFromTime, MakeDay,
      WeekDay). *)

From Stdlib Require Import ZArith List String Ascii Bool Lia.
From Stdlib Require Import QArith Qreduction Lqa.
From Stdlib Require Import Sorted Permutation.
Import ListNotations.
Open Scope Z_scope.

(* ------------------------------------------------------------------ *)
(** ** JavaScript strings *)

Module JsString.

Definition jsstr := list Z.

(** An ASCII literal as a JavaScript string. *)
Definition str (s : string) : jsstr :=
  map (fun a => Z.of_nat (nat_of_ascii a)) (list_ascii_of_string s).

Definition jeqb (a b : jsstr) : bool :=
  if list_eq_dec Z.eq_dec a b then true else false.

(** WhiteSpace and LineTerminator code units of ECMAScript: the set removed
    by [String.prototype.trim] and matched by the regular expression [\s]. *)
Definition is_ws (c : Z) : bool :=
  existsb (Z.eqb c)
    [9; 10; 11; 12; 13; 32; 160; 5760; 8192; 8193; 8194; 8195; 8196; 8197;
     8198; 8199; 8200; 8201; 8202; 8232; 8233; 8239; 8287; 12288; 65279].

Fixpoint drop_ws (s : jsstr) : jsstr :=
  match s with
  | c :: r => if is_ws c then drop_ws r else s
  | [] => []
  end.

(** [s.trim()] *)
Definition trim (s : jsstr) : jsstr := rev (drop_ws (rev (drop_ws s))).

(** [s.toLowerCase()] on the code units that matter here: the ASCII and
    Latin-1 capitals, and the two code units outside ASCII whose lower case
    contains ASCII letters: U+212A KELVIN SIGN gives [k], and U+0130 (I with
    dot above) gives [i] followed by U+0307 (combining dot above). Every
    other code unit is left as it is; its lower case lies outside ASCII
    too, so matching against an ASCII name is not affected. *)
Definition lower_unit (c : Z) : list Z :=
  if ((65 <=? c) && (c <=? 90)) || ((192 <=? c) && (c <=? 222) && negb (c =? 215))
  then [c + 32]
  else if c =? 8490 then [107]
  else if c =? 304 then [105; 775]
  else [c].

Definition toLowerCase (s : jsstr) : jsstr := flat_map lower_unit s.

Fixpoint is_prefix (p s : jsstr) : bool :=
  match p, s with
  | [], _ => true
  | a :: p', b :: s' => (a =? b) && is_prefix p' s'
  | _ :: _, [] => false
  end.

(** [hay.includes(needle)] *)
Fixpoint includes (hay needle : jsstr) : bool :=
  is_prefix needle hay ||
  match hay with
  | [] => false
  | _ :: h => includes h needle
  end.

Fixpoint take_while (f : Z -> bool) (s : jsstr) : jsstr :=
  match s with
  | c :: r => if f c then c :: take_while f r else []
  | [] => []
  end.

(** [s.split("\n")[0]]: the code units before the first line feed. *)
Definition first_line (s : jsstr) : jsstr := take_while (fun c => negb (c =? 10)) s.

(** Truthiness of a string: only the empty string is falsy. *)
Definition truthy (s : jsstr) : bool :=
  match s with [] => false | _ => true end.

End JsString.
Import JsString.

(* ------------------------------------------------------------------ *)
(** ** ECMAScript dates *)

Module JsDate.

Definition msPerDay : Z := 86400000.

Definition Day (t : Z) : Z := t / msPerDay.

Definition DayFromYear (y : Z) : Z :=
  365 * (y - 1970) + (y - 1969) / 4 - (y - 1901) / 100 + (y - 1601) / 400.

Definition TimeFromYear (y : Z) : Z := msPerDay * DayFromYear y.

(** YearFromTime t: the largest y with TimeFromYear y <= t. The estimate
    [y0] is within one year of it; the candidates around it are tried from
    the top. *)
Definition YearFromTime (t : Z) : Z :=
  let y0 := 1970 + (Day t * 400) / 146097 in
  if TimeFromYear (y0 + 2) <=? t then y0 + 2
  else if TimeFromYear (y0 + 1) <=? t then y0 + 1
  else if TimeFromYear y0 <=? t then y0
  else if TimeFromYear (y0 - 1) <=? t then y0 - 1
  else y0 - 2.

Definition DaysInYear (y : Z) : Z :=
  if negb (y mod 4 =? 0) then 365
  else if negb (y mod 100 =? 0) then 366
  else if negb (y mod 400 =? 0) then 365
  else 366.

Definition InLeapYear (y : Z) : Z := DaysInYear y - 365.

(** Day number (within the year) of the first day of month [mn] (0-based). *)
Definition month_start (mn leap : Z) : Z :=
  nth (Z.to_nat mn) [0; 31; 59; 90; 120; 151; 181; 212; 243; 273; 304; 334] 0
  + (if 2 <=? mn then leap else 0).

(** MakeDay(year, month, date) *)
Definition MakeDay (y m d : Z) : Z :=
  let ym := y + m / 12 in
  let mn := m mod 12 in
  DayFromYear ym + month_start mn (InLeapYear ym) + d - 1.

(** [new Date(y, m, d)]: local midnight; years 0..99 denote 1900..1999. *)
Definition new_Date_local (tz y m d : Z) : Z :=
  let yr := if (0 <=? y) && (y <=? 99) then 1900 + y else y in
  MakeDay yr m d * msPerDay - tz.

(** [d.getFullYear()] and [d.getDay()] (local time). *)
Definition getFullYear (tz t : Z) : Z := YearFromTime (t + tz).
Definition getDay (tz t : Z) : Z := (Day (t + tz) + 4) mod 7.

Definition is_digit (c : Z) : bool := (48 <=? c) && (c <=? 57).

Definition digit_val (l : jsstr) : Z := fold_left (fun acc c => acc * 10 + (c - 48)) l 0.

(** [new Date(s)] for the date-only forms [YYYY], [YYYY-MM] and
    [YYYY-MM-DD] of the Date Time String Format, which denote UTC midnight;
    [None] is an invalid date (NaN). As in V8 (the engine of Node), the
    month must be 1..12 and the day 1..31, and a day past the end of its
    month runs over into the next month ([2025-02-30] is March 2). Not
    modelled (taken as invalid): the expanded years [+YYYYYY], the
    date-time forms with [T], and the implementation-specific fallback
    formats such as [2025-7-1], which V8 reads as local time. *)
Definition parse_date (s : jsstr) : option Z :=
  match s with
  | [y1; y2; y3; y4] =>
      if forallb is_digit [y1; y2; y3; y4]
      then Some (MakeDay (digit_val [y1; y2; y3; y4]) 0 1 * msPerDay)
      else None
  | [y1; y2; y3; y4; 45; m1; m2] =>
      if forallb is_digit [y1; y2; y3; y4; m1; m2] then
        let y := digit_val [y1; y2; y3; y4] in
        let m := digit_val [m1; m2] in
        if (1 <=? m) && (m <=? 12) then Some (MakeDay y (m - 1) 1 * msPerDay) else None
      else None
  | [y1; y2; y3; y4; 45; m1; m2; 45; d1; d2] =>
      if forallb is_digit [y1; y2; y3; y4; m1; m2; d1; d2] then
        let y := digit_val [y1; y2; y3; y4] in
        let m := digit_val [m1; m2] in
        let d := digit_val [d1; d2] in
        if (1 <=? m) && (m <=? 12) && (1 <=? d) && (d <=? 31)
        then Some (MakeDay y (m - 1) d * msPerDay)
        else None
      else None
  | _ => None
  end.

End JsDate.
Import JsDate.

(* ------------------------------------------------------------------ *)
(** ** [fmtDate]: [d.toISOString().split("T")[0]] *)

Module JsDateFormat.

Definition msPerHour : Z := 3600000.
Definition msPerMinute : Z := 60000.
Definition msPerSecond : Z := 1000.

Definition DayWithinYear (t : Z) : Z := Day t - DayFromYear (YearFromTime t).

(** MonthFromTime t (0-based), by the table of ECMAScript. *)
Definition MonthFromTime (t : Z) : Z :=
  let d := DayWithinYear t in
  let l := InLeapYear (YearFromTime t) in
  if d <? 31 then 0
  else if d <? 59 + l then 1
  else if d <? 90 + l then 2
  else if d <? 120 + l then 3
  else if d <? 151 + l then 4
  else if d <? 181 + l then 5
  else if d <? 212 + l then 6
  else if d <? 243 + l then 7
  else if d <? 273 + l then 8
  else if d <? 304 + l then 9
  else if d <? 334 + l then 10
  else 11.

(** DateFromTime t: the day of the month (1-based); [month_start] holds
    the constants of the ECMAScript table. *)
Definition DateFromTime (t : Z) : Z :=
  DayWithinYear t - month_start (MonthFromTime t) (InLeapYear (YearFromTime t)) + 1.

Definition HourFromTime (t : Z) : Z := (t / msPerHour) mod 24.
Definition MinFromTime (t : Z) : Z := (t / msPerMinute) mod 60.
Definition SecFromTime (t : Z) : Z := (t / msPerSecond) mod 60.
Definition msFromTime (t : Z) : Z := t mod msPerSecond.

(** The [w] last decimal digits of [n], zero-padded. *)
Fixpoint digits (w : nat) (n : Z) : jsstr :=
  match w with
  | O => []
  | S w' => digits w' (n / 10) ++ [48 + n mod 10]
  end.

(** The year of the Date Time String Format: [YYYY] for 0..9999, the
    expanded [+YYYYYY] / [-YYYYYY] otherwise. *)
Definition year_string (y : Z) : jsstr :=
  if (0 <=? y) && (y <=? 9999) then digits 4 y
  else (if y <? 0 then 45 else 43) :: digits 6 (Z.abs y).

(** [YYYY-MM-DD] for the year [y], the 0-based month [m] and the day [d]. *)
Definition iso_date (y m d : Z) : jsstr :=
  year_string y ++ 45 :: digits 2 (m + 1) ++ 45 :: digits 2 d.

(** [d.toISOString()]: [None] is the [RangeError] thrown for an invalid
    date (a time value beyond 8.64e15 ms, which [TimeClip] makes NaN). *)
Definition toISOString (t : Z) : option jsstr :=
  if 8640000000000000 <? Z.abs t then None
  else Some (iso_date (YearFromTime t) (MonthFromTime t) (DateFromTime t) ++
             84 :: digits 2 (HourFromTime t) ++ 58 :: digits 2 (MinFromTime t) ++
             58 :: digits 2 (SecFromTime t) ++ 46 :: digits 3 (msFromTime t) ++ [90]).

(** [fmtDate(d)]: the part of the ISO string before its first ["T"]. *)
Definition fmtDate (t : Z) : option jsstr :=
  option_map (take_while (fun c => negb (c =? 84))) (toISOString t).

End JsDateFormat.
Import JsDateFormat.

(* ------------------------------------------------------------------ *)
(** ** Stay-window selection: [withinThisYearFiveNights] *)

Module Window.

(** The three [Error]s thrown by [withinThisYearFiveNights]. *)
Inductive window_error :=
| InvalidCheckin            (* "Invalid --checkin date (YYYY-MM-DD)." *)
| CheckinNotFuture          (* "Check-in must be in the future." *)
| CheckinNotThisYear (y : Z). (* "Check-in must be within the current year y." *)

Inductive result (A : Type) :=
| Ok (a : A)
| Err (e : window_error).
Arguments Ok {A} a.
Arguments Err {A} e.

(** The auto-pick branch (lines 43-61), instrumented with which of the
    two choices of [inDate] was taken ([fell_back]: the December-10
    fallback of line 51) and whether the backward shift of lines 56-60
    ran ([shifted]). *)
Record auto_trace := {
  fell_back : bool;
  shifted : bool;
  trace_in : Z;
  trace_out : Z
}.

Definition ceil_div (x d : Z) : Z := - ((- x) / d).

Definition auto_pick (tz now : Z) : auto_trace :=
  let currentYear := getFullYear tz now in
  let earliest := now + 14 * msPerDay in
  let MON := 1 in
  let daysUntilMon := (MON - getDay tz earliest + 7) mod 7 in
  let inDate0 := earliest + daysUntilMon * msPerDay in
  let fb := negb (getFullYear tz inDate0 =? currentYear) in
  let inDate1 := if fb then new_Date_local tz currentYear 11 10 else inDate0 in
  let outDate1 := inDate1 + 5 * msPerDay in
  let lastDay := new_Date_local tz currentYear 11 31 in
  if lastDay <? outDate1 then
    let shiftDays := ceil_div (outDate1 - lastDay) msPerDay in
    {| fell_back := fb; shifted := true;
       trace_in := inDate1 - shiftDays * msPerDay;
       trace_out := outDate1 - shiftDays * msPerDay |}
  else
    {| fell_back := fb; shifted := false; trace_in := inDate1; trace_out := outDate1 |}.

(** [withinThisYearFiveNights(checkinStr)] with [new Date()] = [now];
    [None] is an absent [--checkin] option. *)
Definition withinThisYearFiveNights (tz now : Z) (checkinStr : option jsstr)
  : result (Z * Z) :=
  let currentYear := getFullYear tz now in
  match checkinStr with
  | Some s =>
      if truthy s then
        match parse_date s with
        | None => Err InvalidCheckin
        | Some inDate =>
            let outDate := inDate + 5 * msPerDay in
            if inDate <=? now then Err CheckinNotFuture
            else if negb (getFullYear tz inDate =? currentYear)
            then Err (CheckinNotThisYear currentYear)
            else Ok (inDate, outDate)
        end
      else let tr := auto_pick tz now in Ok (trace_in tr, trace_out tr)
  | None => let tr := auto_pick tz now in Ok (trace_in tr, trace_out tr)
  end.

End Window.
Import Window.

(** Claim C4 as stated, for every supplied [--checkin]: the window fails
    exactly when the date is unparseable, not after [now], or in another
    year, and otherwise ends five days after the check-in. *)
Definition explicit_checkin_contract (tz now : Z) (s : jsstr) : Prop :=
  ((exists e, withinThisYearFiveNights tz now (Some s) = Err e) <->
   (parse_date s = None \/
    exists i, parse_date s = Some i /\ (i <= now \/ getFullYear tz i <> getFullYear tz now))) /\
  (forall i o, withinThisYearFiveNights tz now (Some s) = Ok (i, o) ->
   parse_date s = Some i /\ o = i + 5 * msPerDay).

(* ------------------------------------------------------------------ *)
(** ** Price parsing: [parseCurrencyPrice] *)

Module Price.

Local Open Scope Q_scope.

(** Canonicalize of the non-unicode case-insensitive regular expressions
    on the code units it can map onto the ASCII capitals of the pattern:
    only the ASCII small letters (a non-ASCII code unit never canonicalizes
    to an ASCII one). *)
Definition canon (c : Z) : Z :=
  if ((97 <=? c) && (c <=? 122))%Z then (c - 32)%Z else c.

(** The alternatives of the capture group [([₹$€£¥]|USD|EUR|GBP|JPY|INR)],
    in order: the character class, then the five codes. *)
Definition currency_symbols : list Z := [8377; 36; 8364; 163; 165]%Z.
Definition currency_codes : list jsstr :=
  [str "USD"; str "EUR"; str "GBP"; str "JPY"; str "INR"].

Fixpoint match_ci (pat s : jsstr) : option (jsstr * jsstr) :=
  match pat, s with
  | [], _ => Some ([], s)
  | p :: pat', c :: s' =>
      if (canon c =? canon p)%Z then
        match match_ci pat' s' with
        | Some (m, r) => Some (c :: m, r)
        | None => None
        end
      else None
  | _ :: _, [] => None
  end.

(** The rest of the pattern after the currency, [\s*] and then group 2,
    [[0-9][0-9,\.]* ]: [\s*] is greedy and giving
    back white space can never expose a digit, so the number starts after
    all the white space; the greedy class takes the longest run. *)
Definition is_num_unit (c : Z) : bool := is_digit c || (c =? 44)%Z || (c =? 46)%Z.

Definition match_number (s : jsstr) : option jsstr :=
  match drop_ws s with
  | d :: r => if is_digit d then Some (d :: take_while is_num_unit r) else None
  | [] => None
  end.

Definition currency_alternatives (s : jsstr) : list (jsstr * jsstr) :=
  (match s with
   | c :: r => if existsb (Z.eqb c) currency_symbols then [([c], r)] else []
   | [] => []
   end) ++
  flat_map (fun code => match match_ci code s with Some mr => [mr] | None => [] end)
    currency_codes.

Fixpoint first_success (alts : list (jsstr * jsstr)) : option (jsstr * jsstr) :=
  match alts with
  | [] => None
  | (cur, r) :: alts' =>
      match match_number r with
      | Some num => Some (cur, num)
      | None => first_success alts'
      end
  end.

(** A match anchored at the start of [s]: groups 1 and 2. *)
Definition match_at (s : jsstr) : option (jsstr * jsstr) :=
  first_success (currency_alternatives s).

(** [text.match(re)]: the leftmost match. *)
Fixpoint search (s : jsstr) : option (jsstr * jsstr) :=
  match match_at s with
  | Some m => Some m
  | None => match s with [] => None | _ :: t => search t end
  end.

Fixpoint span_digits (s : jsstr) : jsstr * jsstr :=
  match s with
  | c :: r => if is_digit c then let (a, b) := span_digits r in (c :: a, b) else ([], s)
  | [] => ([], [])
  end.

(** [parseFloat(tok)] on a token of digits and dots that starts with a digit:
    the longest prefix of the form digits[.digits], read as the exact
    decimal number it writes (JavaScript then rounds it to the nearest
    double; the rounding is not modelled). *)
Definition parseFloat (tok : jsstr) : Q :=
  let (ip, rest) := span_digits tok in
  let fp := match rest with
            | 46%Z :: r => take_while is_digit r
            | _ => []
            end in
  Qred (inject_Z (digit_val ip) + Qmake (digit_val fp) (Z.to_pos (10 ^ Z.of_nat (List.length fp)))).

(** [s.replace(/,/g, "")] *)
Definition remove_commas (s : jsstr) : jsstr := filter (fun c => negb (c =? 44)%Z) s.

(** [parseCurrencyPrice(text)]: [None] is [null]; [Some (currency, value)]. *)
Definition parseCurrencyPrice (text : jsstr) : option (jsstr * Q) :=
  match search text with
  | None => None
  | Some (cur, num) => Some (cur, parseFloat (remove_commas num))
  end.



End Price.
Import Price.

(* ------------------------------------------------------------------ *)
(** ** Provider name (lines 184-205 and 219) *)

Module Provider.

Definition brands : list jsstr :=
  [str "Google"; str "Booking.com"; str "Expedia"; str "Agoda"; str "Hotels.com";
   str "MakeMyTrip"; str "Trip.com"; str "Priceline"; str "Travelocity";
   str "Cleartrip"; str "Goibibo"; str "Easemytrip"].

(** The [for ... of] loop over the brands with its [break]. *)
Fixpoint brand_loop (text : jsstr) (bs : list jsstr) (providerName : jsstr) : jsstr :=
  match bs with
  | [] => providerName
  | brand :: bs' =>
      if includes (toLowerCase text) (toLowerCase brand) then brand
      else brand_loop text bs' providerName
  end.

Definition providerName_of (text : jsstr) : jsstr :=
  let providerName := trim (first_line text) in
  if negb (truthy providerName) || (60 <? Z.of_nat (List.length providerName))%Z
  then brand_loop text brands providerName
  else providerName.

(** The [provider] field pushed on line 219: [providerName || "Unknown"]. *)
Definition resolve_provider (text : jsstr) : jsstr :=
  let providerName := providerName_of text in
  if truthy providerName then providerName else str "Unknown".

(** A row whose first line is 61 characters long and names no brand. *)
Definition long_row : jsstr := repeat 120%Z 61 ++ 10%Z :: str "$100".

End Provider.
Import Provider.

(* ------------------------------------------------------------------ *)
(** ** Deduplication by provider (lines 227-251) *)

Module Aggregate.

Local Open Scope Q_scope.

(** The objects pushed on lines 218-224. *)
Record quote := mkQuote {
  provider : jsstr;
  price_value : Q;
  currency : jsstr;
  url : option jsstr;
  raw_text : jsstr
}.

(** [a < b] on two prices. *)
Definition Qltb (a b : Q) : bool := negb (Qle_bool b a).

(** [(p.provider || "Unknown").trim()] *)
Definition key (p : quote) : jsstr :=
  trim (if truthy (provider p) then provider p else str "Unknown").

(** A JavaScript [Map] as its entries in insertion order. *)
Definition map_t := list (jsstr * quote).

Fixpoint map_get (m : map_t) (k : jsstr) : option quote :=
  match m with
  | [] => None
  | (k', v) :: m' => if jeqb k' k then Some v else map_get m' k
  end.

(** [m.set(k, v)]: an existing key keeps its position. *)
Fixpoint map_set (m : map_t) (k : jsstr) (v : quote) : map_t :=
  match m with
  | [] => [(k, v)]
  | (k', v') :: m' => if jeqb k' k then (k', v) :: m' else (k', v') :: map_set m' k v
  end.

(** One iteration of the [for (const p of providers)] loop. *)
Definition dedup_step (byProvider : map_t) (p : quote) : map_t :=
  let k := key p in
  match map_get byProvider k with
  | None => map_set byProvider k p
  | Some q => if Qltb (price_value p) (price_value q) then map_set byProvider k p
              else byProvider
  end.

Definition byProvider_of (providers : list quote) : map_t :=
  fold_left dedup_step providers [].

(** [[...byProvider.values()]] *)
Definition values (m : map_t) : list quote := map snd m.

(** The [reduce] callback of line 238. *)
Definition min_step (min p : quote) : quote :=
  if Qltb (price_value p) (price_value min) then p else min.

Definition lowest_of (deduped : list quote) : option quote :=
  match deduped with
  | [] => None
  | d0 :: _ => Some (fold_left min_step deduped d0)
  end.

(** [deduped.sort((a, b) => a.price_value - b.price_value)]: the stable
    sort (ECMAScript 2019 and later) under a consistent comparator has one
    result, the one of this stable insertion sort. *)
Fixpoint insert (x : quote) (l : list quote) : list quote :=
  match l with
  | [] => [x]
  | y :: l' => if Qle_bool (price_value x) (price_value y) then x :: l
               else y :: insert x l'
  end.

Fixpoint sort (l : list quote) : list quote :=
  match l with
  | [] => []
  | x :: l' => insert x (sort l')
  end.

(** The two fields of the result built from the quotes: [all_providers]
    (the sorted [deduped]) and [lowest]. [lowest] is computed before the
    in-place sort. *)
Definition aggregate (providers : list quote) : list quote * option quote :=
  let deduped := values (byProvider_of providers) in
  let lowest := lowest_of deduped in
  (sort deduped, lowest).

(** *** The aggregation as the specification describes it *)

(** The quote kept in a group: of minimum amount, the first seen on ties. *)
Fixpoint first_min (g : list quote) : option quote :=
  match g with
  | [] => None
  | x :: g' =>
      match first_min g' with
      | None => Some x
      | Some y => if Qle_bool (price_value x) (price_value y) then Some x else Some y
      end
  end.

Definition group (k : jsstr) (l : list quote) : list quote :=
  filter (fun p => jeqb (key p) k) l.

(** The provider keys in the order in which they are first seen. *)
Fixpoint first_keys_aux (seen : list jsstr) (l : list quote) : list jsstr :=
  match l with
  | [] => []
  | p :: l' => if existsb (jeqb (key p)) seen then first_keys_aux seen l'
               else key p :: first_keys_aux (key p :: seen) l'
  end.

Definition first_keys (l : list quote) : list jsstr := first_keys_aux [] l.

Definition option_list {A} (o : option A) : list A :=
  match o with Some a => [a] | None => [] end.

(** Kept quotes listed in the order in which their provider first appears. *)
Definition kept_by_provider (l : list quote) : list quote :=
  flat_map (fun k => option_list (first_min (group k l))) (first_keys l).

(** Kept quotes listed in their own encounter order: [x] at position [i] is
    kept when every earlier quote of its group is dearer and no later one is
    cheaper. *)
Fixpoint kept_in_encounter_order (pre l : list quote) : list quote :=
  match l with
  | [] => []
  | x :: l' =>
      (if forallb (fun y => negb (jeqb (key y) (key x)) || Qltb (price_value x) (price_value y)) pre
          && forallb (fun y => negb (jeqb (key y) (key x)) || Qle_bool (price_value x) (price_value y)) l'
       then [x] else [])
      ++ kept_in_encounter_order (pre ++ [x]) l'
  end.

(** The specification's aggregation: the stable ascending sort of the kept
    quotes, ties kept in original encounter order, and its first element. *)
Definition aggregate_spec_encounter (l : list quote) : list quote * option quote :=
  let d := sort (kept_in_encounter_order [] l) in (d, hd_error d).

(** The same with the kept quotes taken in provider first-seen order. *)
Definition aggregate_spec_by_provider (l : list quote) : list quote * option quote :=
  let d := sort (kept_by_provider l) in (d, hd_error d).

(** A Map whose keys are [ks], in this order, with the entry [v] for a
    key [k] when [G k = Some v] (and no entry when [G k = None]). *)
Definition entries (G : jsstr -> option quote) (ks : list jsstr) : map_t :=
  flat_map (fun k => match G k with Some v => [(k, v)] | None => [] end) ks.

(** Sortedness by ascending price. *)
Fixpoint sorted_by_price (l : list quote) : Prop :=
  match l with
  | x :: ((y :: _) as t) => price_value x <= price_value y /\ sorted_by_price t
  | _ => True
  end.

(** Sample quotes: provider, amount. *)
Definition sample_quote (p : string) (v : Z) : quote :=
  mkQuote (str p) (inject_Z v) (str "$") None (str p).

Definition qA100 := sample_quote "A" 100.
Definition qB90 := sample_quote "B" 90.
Definition qA80 := sample_quote "A" 80.
Definition qB50 := sample_quote "B" 50.
Definition qA50 := sample_quote "A" 50.

End Aggregate.
Import Aggregate.

(* ------------------------------------------------------------------ *)
(** ** [findLowestPrice]: the browser resource across the awaited calls *)

Module Orchestrator.

(** The awaited calls on the page-automation library, in program order. *)
Inductive op :=
| Launch | NewContext | NewPage | Goto
| CookieCount | CookieClick
| FiltersClick | FiveStarFilterClick | DoneClick
| SortClick | MenuCount | MenuClick
| Wait1 | FiveStarLinkCount | FiveStarLinkClick | FirstLinkClick | Wait2
| RatingCount | CompareCount | CompareClick | Wait3
| RowsCount | RowInnerText (i : nat)
| Close.

(** What the page does: which awaited calls reject, what [count()] and
    [innerText()] resolve to. *)
Record world := {
  rejects : op -> bool;
  count_of : op -> Z;
  inner_text : nat -> jsstr
}.

(** The state threaded through the run: is the launched browser open? *)
Definition state := bool.

Inductive outcome (A : Type) := Ret (a : A) | Thrown.
Arguments Ret {A} a.
Arguments Thrown {A}.

(** An async computation: given the world and the state, its outcome
    (a value or a thrown error) and the final state. *)
Definition M (A : Type) := world -> state -> outcome A * state.

Definition ret {A} (a : A) : M A := fun _ s => (Ret a, s).
Definition throw {A} : M A := fun _ s => (Thrown, s).
Definition bind {A B} (m : M A) (k : A -> M B) : M B :=
  fun w s => match m w s with
             | (Ret a, s') => k a w s'
             | (Thrown, s') => (Thrown, s')
             end.
Notation "x <- m ;; k" := (bind m (fun x => k)) (at level 61, m at next level, right associativity).
Notation "m ;;; k" := (bind m (fun _ => k)) (at level 61, right associativity).

(** [try { m } catch { h }] *)
Definition try_catch {A} (m : M A) (h : M A) : M A :=
  fun w s => match m w s with
             | (Thrown, s') => h w s'
             | r => r
             end.
Definition try_ (m : M unit) : M unit := try_catch m (ret tt).

(** [await x.op(...)] for an operation resolving to nothing / to a count /
    to a text. *)
Definition call (o : op) : M unit :=
  fun w s => if rejects w o then (Thrown, s) else (Ret tt, s).
Definition count (o : op) : M Z :=
  fun w s => if rejects w o then (Thrown, s) else (Ret (count_of w o), s).
Definition innerText (i : nat) : M jsstr :=
  fun w s => if rejects w (RowInnerText i) then (Thrown, s) else (Ret (inner_text w i), s).

(** [chromium.launch()] acquires the browser; [browser.close()] releases
    it. A rejected [browser.close()] throws and leaves the state as it was. *)
Definition launch : M unit :=
  fun w s => if rejects w Launch then (Thrown, s) else (Ret tt, true).
Definition close : M unit :=
  fun w s => if rejects w Close then (Thrown, s) else (Ret tt, false).

Definition when (b : bool) (m : M unit) : M unit := if b then m else ret tt.

(** The row loop of lines 170-225; the [href] lookup always throws a
    [TypeError] ([first] is a method), which its [try] swallows. *)
Fixpoint rows_loop (i : nat) (fuel : nat) (acc : list quote) : M (list quote) :=
  match fuel with
  | O => ret acc
  | S fuel' =>
      r <- try_catch (text <- innerText i ;; ret (Some text)) (ret None) ;;
      match r with
      | None => rows_loop (S i) fuel' acc
      | Some text =>
          if negb (truthy text) then rows_loop (S i) fuel' acc
          else match parseCurrencyPrice text with
               | None => rows_loop (S i) fuel' acc
               | Some (cur, v) =>
                   try_ throw ;;;
                   rows_loop (S i) fuel'
                     (acc ++ [mkQuote (resolve_provider text) v cur None text])
               end
      end
  end.

(** The returned object, with the dates as time values. *)
Record run_result := {
  query_city : jsstr;
  checkin : Z;
  checkout : Z;
  lowest : option quote;
  all_providers : list quote
}.

Definition findLowestPrice (tz now : Z) (city : jsstr) (checkinOpt : option jsstr)
  : M run_result :=
  match withinThisYearFiveNights tz now checkinOpt with
  | Err _ => throw
  | Ok (dtIn, dtOut) =>
      launch ;;;
      call NewContext ;;;
      call NewPage ;;;
      call Goto ;;;
      try_ (n <- count CookieCount ;; when (negb (n =? 0)) (call CookieClick)) ;;;
      try_ (call FiltersClick ;;; call FiveStarFilterClick ;;; call DoneClick) ;;;
      try_ (call SortClick ;;; n <- count MenuCount ;; when (negb (n =? 0)) (call MenuClick)) ;;;
      call Wait1 ;;;
      try_catch
        (n <- count FiveStarLinkCount ;;
         if negb (n =? 0) then call FiveStarLinkClick else call FirstLinkClick)
        (close ;;; throw) ;;;
      call Wait2 ;;;
      (* hotel name: [getByRole("heading").first.innerText()] is a TypeError *)
      try_ throw ;;;
      (* rating: [ratingNode.first.innerText()] is a TypeError *)
      try_ (n <- count RatingCount ;; when (negb (n =? 0)) throw) ;;;
      try_ (n <- count CompareCount ;; when (negb (n =? 0)) (call CompareClick)) ;;;
      call Wait3 ;;;
      n <- count RowsCount ;;
      let rowsCount := Z.min n 80 in
      providers <- rows_loop O (Z.to_nat rowsCount) [] ;;
      let '(sorted, low) := aggregate providers in
      close ;;;
      ret {| query_city := city; checkin := dtIn; checkout := dtOut;
             lowest := low; all_providers := sorted |}
  end.

(** The page-automation library in which only [page.goto] rejects (for
    instance a navigation timeout). *)
Definition goto_fails : world :=
  {| rejects := fun o => match o with Goto => true | _ => false end;
     count_of := fun _ => 0;
     inner_text := fun _ => [] |}.

(** The same library where only [fiveStarLink.count()] rejects. *)
Definition link_count_fails : world :=
  {| rejects := fun o => match o with FiveStarLinkCount => true | _ => false end;
     count_of := fun _ => 0;
     inner_text := fun _ => [] |}.

(** A library where every call succeeds and one row carries a price. *)
Definition all_ok : world :=
  {| rejects := fun _ => false;
     count_of := fun o => match o with RowsCount => 1 | _ => 0 end;
     inner_text := fun _ => str "Agoda" ++ 10%Z :: str "$120" |}.

End Orchestrator.

(* ================================================================== *)
(** * Calendar facts *)

Lemma DayFromYear_succ y : DayFromYear (y + 1) - DayFromYear y = DaysInYear y.
Proof.
  unfold DayFromYear, DaysInYear.
  destruct (Z.eqb_spec (y mod 4) 0), (Z.eqb_spec (y mod 100) 0),
    (Z.eqb_spec (y mod 400) 0); cbn [negb]; Z.div_mod_to_equations; lia.
Qed.

Lemma DaysInYear_bounds y : 365 <= DaysInYear y <= 366.
Proof. unfold DaysInYear; repeat (destruct (_ =? _)); simpl; lia. Qed.

Lemma TimeFromYear_mono a b : a < b -> TimeFromYear a + 365 * msPerDay <= TimeFromYear b.
Proof. unfold TimeFromYear, DayFromYear, msPerDay; Z.div_mod_to_equations; lia. Qed.

Lemma YearFromTime_spec t :
  TimeFromYear (YearFromTime t) <= t < TimeFromYear (YearFromTime t + 1).
Proof.
  unfold YearFromTime, TimeFromYear, Day, msPerDay, DayFromYear.
  set (y0 := 1970 + t / 86400000 * 400 / 146097).
  repeat match goal with |- context [if ?c then _ else _] => destruct c eqn:? end;
  rewrite ?Z.leb_le, ?Z.leb_gt in *; subst y0; Z.div_mod_to_equations; lia.
Qed.

Lemma YearFromTime_unique y t :
  TimeFromYear y <= t < TimeFromYear (y + 1) -> YearFromTime t = y.
Proof.
  intros H. pose proof (YearFromTime_spec t) as Hs.
  destruct (Z.lt_total (YearFromTime t) y) as [Hlt | [Heq | Hgt]]; auto.
  - destruct (Z.eq_dec (YearFromTime t + 1) y) as [E | NE].
    + rewrite E in Hs. lia.
    + pose proof (TimeFromYear_mono (YearFromTime t + 1) y ltac:(lia)). unfold msPerDay in *. lia.
  - destruct (Z.eq_dec (y + 1) (YearFromTime t)) as [E | NE].
    + rewrite <- E in Hs. lia.
    + pose proof (TimeFromYear_mono (y + 1) (YearFromTime t) ltac:(lia)). unfold msPerDay in *. lia.
Qed.

Lemma getFullYear_range tz t y :
  TimeFromYear y <= t + tz < TimeFromYear (y + 1) -> getFullYear tz t = y.
Proof. apply YearFromTime_unique. Qed.

Lemma getFullYear_spec tz t :
  TimeFromYear (getFullYear tz t) <= t + tz < TimeFromYear (getFullYear tz t + 1).
Proof. apply YearFromTime_spec. Qed.

Lemma MakeDay_december y d : MakeDay y 11 d = DayFromYear (y + 1) - 32 + d.
Proof.
  unfold MakeDay. change (11 / 12) with 0. change (11 mod 12) with 11.
  rewrite Z.add_0_r. unfold month_start. simpl nth. change (2 <=? 11) with true. cbv iota.
  pose proof (DayFromYear_succ y). unfold InLeapYear. lia.
Qed.

Lemma new_Date_december tz y d :
  ~ (0 <= y <= 99) -> new_Date_local tz y 11 d = TimeFromYear (y + 1) - (32 - d) * msPerDay - tz.
Proof.
  intros Hy. unfold new_Date_local.
  replace ((0 <=? y) && (y <=? 99)) with false
    by (symmetry; apply andb_false_iff; destruct (Z.le_gt_cases 0 y);
        [right; apply Z.leb_gt | left; apply Z.leb_gt]; lia).
  rewrite MakeDay_december. unfold TimeFromYear. lia.
Qed.

Lemma new_Date_dec31_dec10 tz y :
  new_Date_local tz y 11 31 - new_Date_local tz y 11 10 = 21 * msPerDay.
Proof. unfold new_Date_local. rewrite !MakeDay_december. lia. Qed.

(* ================================================================== *)
(** * Stay-window selection *)

Lemma ceil_div_bounds x : 0 < x ->
  x <= ceil_div x msPerDay * msPerDay < x + msPerDay.
Proof. intros Hx. unfold ceil_div, msPerDay. Z.div_mod_to_equations. lia. Qed.

Lemma daysUntilMon_bounds g : 0 <= (1 - g + 7) mod 7 < 7.
Proof. apply Z.mod_pos_bound. lia. Qed.

Ltac year_by_range :=
  apply getFullYear_range; unfold msPerDay in *; lia.

(** Claim C2 (code bug). Line 43 promises a check-in "at least 14 days
    from now", and the explicit path refuses a check-in that is not in the
    future (line 36). Yet whenever the auto-pick takes the December-10
    fallback of line 51 (for every [now] whose local year is not one of
    0..99, which [new Date(y, 11, d)] reads as 19yy), the returned check-in
    is at least two days before [now]: the fallback is only taken when
    [now] is at most 20 days before the next New Year, that is on or after
    December 11. For example, on 2025-12-20 00:00 UTC (offset 0) the
    check-in is 2025-12-10, ten days in the past. *)
Theorem auto_pick_fallback_always_past tz now :
  ~ (0 <= getFullYear tz now <= 99) -> fell_back (auto_pick tz now) = true ->
  match withinThisYearFiveNights tz now None with
  | Ok (i, _) => i + 2 * msPerDay <= now
  | Err _ => False
  end.
Proof.
  intros Hy. unfold withinThisYearFiveNights, auto_pick. cbv beta iota zeta.
  set (Y := getFullYear tz now) in *.
  pose proof (getFullYear_spec tz now) as HY. fold Y in HY.
  set (e := now + 14 * msPerDay).
  pose proof (daysUntilMon_bounds (getDay tz e)) as Hk.
  set (k := (1 - getDay tz e + 7) mod 7) in *.
  set (m := e + k * msPerDay).
  destruct (Z.eqb_spec (getFullYear tz m) Y) as [Hm | Hm]; cbn [negb].
  - destruct (_ <? _); cbn [fell_back]; discriminate.
  - intros _.
    assert (Hlate : TimeFromYear (Y + 1) <= m + tz).
    { destruct (Z.le_gt_cases (TimeFromYear (Y + 1)) (m + tz)) as [H | H]; [exact H|].
      exfalso. apply Hm. subst m e. year_by_range. }
    rewrite (new_Date_december tz Y 31), (new_Date_december tz Y 10) by exact Hy.
    destruct (Z.ltb_spec (TimeFromYear (Y + 1) - (32 - 31) * msPerDay - tz)
                (TimeFromYear (Y + 1) - (32 - 10) * msPerDay - tz + 5 * msPerDay))
      as [Hs | Hs]; [unfold msPerDay in *; lia|]; cbn [trace_in].
    subst m e. unfold msPerDay in *. lia.
Qed.

Lemma auto_pick_fallback_always_past_witness :
  (~ (0 <= getFullYear 0 1766188800000 <= 99) /\ fell_back (auto_pick 0 1766188800000) = true) /\
  match withinThisYearFiveNights 0 1766188800000 None with
  | Ok (i, _) => i + 2 * msPerDay <= 1766188800000
  | Err _ => False
  end.
Proof.
  assert (Hy : ~ (0 <= getFullYear 0 1766188800000 <= 99))
    by (vm_compute; intros [_ H]; apply H; reflexivity).
  assert (Hf : fell_back (auto_pick 0 1766188800000) = true) by (vm_compute; reflexivity).
  split; [split; [exact Hy | exact Hf] | exact (auto_pick_fallback_always_past 0 1766188800000 Hy Hf)].
Defined.

(** Claim C3 as stated (the shift is only ever caused by the December-10
    fallback) fails on 2025-12-15 12:00 UTC (offset 0): the Monday
    2025-12-29 is kept, its check-out 2026-01-03 passes December 31, and the
    shift moves the stay to 2025-12-25 .. 2025-12-30. *)
Lemma auto_pick_shift_from_monday :
  ~ (forall tz now,
       shifted (auto_pick tz now) = true -> fell_back (auto_pick tz now) = true).
Proof.
  intros H. specialize (H 0 1765800000000 eq_refl). vm_compute in H. discriminate H.
Qed.

(** Claim C3 (amended). The December-10 fallback never triggers the
    backward shift (its check-out, December 15, is before December 31); the
    shift happens only on the Monday-preference path, for a Monday late in
    December. *)
Theorem auto_pick_fallback_never_shifted tz now :
  fell_back (auto_pick tz now) = true -> shifted (auto_pick tz now) = false.
Proof.
  unfold auto_pick. cbv beta zeta.
  set (Y := getFullYear tz now).
  set (m := now + 14 * msPerDay + (1 - getDay tz (now + 14 * msPerDay) + 7) mod 7 * msPerDay).
  destruct (getFullYear tz m =? Y); cbn [negb].
  - destruct (_ <? _); cbn [fell_back]; discriminate.
  - intros _. pose proof (new_Date_dec31_dec10 tz Y).
    destruct (Z.ltb_spec (new_Date_local tz Y 11 31) (new_Date_local tz Y 11 10 + 5 * msPerDay));
      [unfold msPerDay in *; lia | reflexivity].
Qed.

Lemma auto_pick_fallback_never_shifted_witness :
  fell_back (auto_pick 0 1766188800000) = true /\ shifted (auto_pick 0 1766188800000) = false.
Proof.
  assert (H : fell_back (auto_pick 0 1766188800000) = true) by (vm_compute; reflexivity).
  split; [exact H | exact (auto_pick_fallback_never_shifted 0 1766188800000 H)].
Defined.

(** Claim C4 fails on the empty string: [--checkin ""] is falsy, takes the
    auto-pick path and yields a window, although it is not a date. *)
Lemma explicit_checkin_empty_string :
  withinThisYearFiveNights 0 1749945600000 (Some []) =
    withinThisYearFiveNights 0 1749945600000 None /\
  ~ (forall tz now s, explicit_checkin_contract tz now s).
Proof.
  split; [reflexivity|].
  intros H. destruct (H 0 1749945600000 []) as [[_ Hback] _].
  destruct (Hback (or_introl eq_refl)) as [e He]. vm_compute in He. discriminate He.
Qed.

(** Claim C4 (amended). For every non-empty [--checkin] string, the window
    fails (with one of the three errors) exactly when the string is not a
    date, or the date is not strictly after [now], or its local year differs
    from [now]'s; otherwise the check-in is the parsed date and the
    check-out is exactly five days later, whatever its year. An empty string
    is treated as an absent option. *)
Theorem explicit_checkin_window tz now s :
  truthy s = true -> explicit_checkin_contract tz now s.
Proof.
  intros Hs. unfold explicit_checkin_contract, withinThisYearFiveNights.
  rewrite Hs. cbv beta zeta.
  destruct (parse_date s) as [i|].
  - destruct (Z.leb_spec i now) as [Hle | Hgt].
    + split.
      * split; [intros _; right; exists i; auto | intros _; eexists; reflexivity].
      * intros ? ? H. discriminate H.
    + destruct (Z.eqb_spec (getFullYear tz i) (getFullYear tz now)) as [Hy | Hy]; cbn [negb].
      * split.
        -- split; [intros [e He]; discriminate He|].
           intros [H | [i' [Hi' [H | H]]]]; [discriminate H | |];
             injection Hi' as <-; lia.
        -- intros i' o H. injection H as <- <-. auto.
      * split.
        -- split; [intros _; right; exists i; auto | intros _; eexists; reflexivity].
        -- intros ? ? H. discriminate H.
  - split.
    + split; [intros _; left; reflexivity | intros _; eexists; reflexivity].
    + intros ? ? H. discriminate H.
Qed.

Lemma explicit_checkin_window_witness :
  truthy (str "2025-07-01") = true /\
  explicit_checkin_contract 0 1749945600000 (str "2025-07-01").
Proof.
  assert (H : truthy (str "2025-07-01") = true) by reflexivity.
  split; [exact H | exact (explicit_checkin_window 0 1749945600000 _ H)].
Defined.

(* ================================================================== *)
(** * Price parsing *)

Section DigitFacts.

Lemma digit_val_app l c : digit_val (l ++ [c]) = digit_val l * 10 + (c - 48).
Proof. unfold digit_val. rewrite fold_left_app. reflexivity. Qed.

Lemma digits_length w n : List.length (digits w n) = w.
Proof.
  revert n. induction w as [|w IH]; intros n; simpl; [reflexivity|].
  rewrite length_app, IH. simpl. lia.
Qed.

Lemma is_digit_mod n : is_digit (48 + n mod 10) = true.
Proof.
  pose proof (Z.mod_pos_bound n 10 ltac:(lia)). unfold is_digit.
  apply andb_true_iff. split; apply Z.leb_le; lia.
Qed.

Lemma digits_is_digit w n : forallb is_digit (digits w n) = true.
Proof.
  revert n. induction w as [|w IH]; intros n; [reflexivity|].
  cbn [digits]. rewrite forallb_app, IH. cbn [forallb]. rewrite is_digit_mod. reflexivity.
Qed.

Lemma digit_val_digits w n : digit_val (digits w n) = n mod 10 ^ Z.of_nat w.
Proof.
  revert n. induction w as [|w IH]; intros n.
  - simpl. rewrite Z.mod_1_r. reflexivity.
  - cbn [digits]. rewrite digit_val_app, IH, Nat2Z.inj_succ, Z.pow_succ_r by lia.
    pose proof (Z.pow_pos_nonneg 10 (Z.of_nat w) ltac:(lia) ltac:(lia)).
    rewrite !Z.mod_eq by lia. rewrite <- Z.div_div by lia. ring.
Qed.

Lemma digits_digit_val l :
  forallb is_digit l = true -> digits (List.length l) (digit_val l) = l.
Proof.
  induction l as [|c l IH] using rev_ind; intros Hl; [reflexivity|].
  rewrite forallb_app in Hl. apply andb_true_iff in Hl as [Hl Hc]. simpl in Hc.
  rewrite andb_true_r in Hc. unfold is_digit in Hc. apply andb_true_iff in Hc as [H1 H2].
  apply Z.leb_le in H1. apply Z.leb_le in H2.
  rewrite length_app, Nat.add_1_r. cbn [digits]. rewrite digit_val_app.
  replace ((digit_val l * 10 + (c - 48)) / 10) with (digit_val l) by (Z.div_mod_to_equations; lia).
  replace (48 + (digit_val l * 10 + (c - 48)) mod 10) with c by (Z.div_mod_to_equations; lia).
  rewrite IH by exact Hl. reflexivity.
Qed.

Lemma digit_val_bound l :
  forallb is_digit l = true -> 0 <= digit_val l < 10 ^ Z.of_nat (List.length l).
Proof.
  intros Hl. pose proof (digit_val_digits (List.length l) (digit_val l)) as E.
  rewrite digits_digit_val in E by exact Hl. rewrite E.
  apply Z.mod_pos_bound. apply Z.pow_pos_nonneg; lia.
Qed.

Lemma digit_no_T l :
  forallb is_digit l = true -> forallb (fun c => negb (c =? 84)) l = true.
Proof.
  induction l as [|a l IH]; simpl; auto.
  intros H. apply andb_true_iff in H as [Ha Hl]. rewrite IH by auto.
  unfold is_digit in Ha. apply andb_true_iff in Ha as [_ H2].
  apply Z.leb_le in H2. destruct (Z.eqb_spec a 84); [lia | reflexivity].
Qed.

End DigitFacts.

Section PriceShape.

Lemma take_while_forallb f s : forallb f (take_while f s) = true.
Proof.
  induction s as [|c s IH]; simpl; auto.
  destruct (f c) eqn:Hc; simpl; auto. rewrite Hc, IH. reflexivity.
Qed.

Lemma span_digits_digits s a b : span_digits s = (a, b) -> forallb is_digit a = true.
Proof.
  revert a b. induction s as [|c s IH]; simpl; intros a b H.
  - injection H as <- <-. reflexivity.
  - destruct (is_digit c) eqn:Hc.
    + destruct (span_digits s) as [a' b'] eqn:E. injection H as <- <-.
      simpl. rewrite Hc. eapply IH. reflexivity.
    + injection H as <- <-. reflexivity.
Qed.

Lemma fraction_digits_eq c r :
  match c :: r with 46 :: r' => take_while is_digit r' | _ => [] end =
    if c =? 46 then take_while is_digit r else [].
Proof. destruct c as [|p|p]; [reflexivity| |reflexivity]. repeat (destruct p as [p|p|]; try reflexivity). Qed.

Lemma parseFloat_nonneg tok : (0 <= parseFloat tok)%Q.
Proof.
  unfold parseFloat. destruct (span_digits tok) as [ip rest] eqn:E.
  set (fp := match rest with 46 :: r => take_while is_digit r | _ => [] end).
  assert (Hfp : forallb is_digit fp = true).
  { subst fp. destruct rest as [|c r]; [reflexivity|].
    rewrite fraction_digits_eq. destruct (c =? 46); [apply take_while_forallb | reflexivity]. }
  pose proof (digit_val_bound ip (span_digits_digits _ _ _ E)) as [Hi _].
  pose proof (digit_val_bound fp Hfp) as [Hf _].
  rewrite Qred_correct.
  apply (Qle_trans _ (0 + 0)); [lra|]. apply Qplus_le_compat.
  - unfold Qle. simpl. lia.
  - unfold Qle. simpl. lia.
Qed.

End PriceShape.

Section PriceFacts.
Local Open Scope Q_scope.

Lemma take_while_all f l : forallb f l = true -> take_while f l = l.
Proof.
  induction l as [|c l IH]; simpl; auto.
  intros H. apply andb_true_iff in H as [Hc Hl]. rewrite Hc, IH; auto.
Qed.

Lemma take_while_app_stop f l c r :
  forallb f l = true -> f c = false -> take_while f (l ++ c :: r) = l.
Proof.
  induction l as [|a l IH]; simpl; intros H Hc.
  - rewrite Hc. reflexivity.
  - apply andb_true_iff in H as [Ha Hl]. rewrite Ha, IH; auto.
Qed.

Lemma remove_commas_id l :
  forallb (fun c => negb (c =? 44)%Z) l = true -> remove_commas l = l.
Proof.
  unfold remove_commas. induction l as [|a l IH]; simpl; auto.
  intros H. apply andb_true_iff in H as [Ha Hl]. rewrite Ha, IH; auto.
Qed.

Lemma forallb_digit_no_comma l :
  forallb is_digit l = true -> forallb (fun c => negb (c =? 44)%Z) l = true.
Proof.
  induction l as [|a l IH]; simpl; auto.
  intros H. apply andb_true_iff in H as [Ha Hl]. rewrite IH by auto.
  unfold is_digit in Ha. apply andb_true_iff in Ha as [H1 H2].
  apply Z.leb_le in H1. destruct (Z.eqb_spec a 44); [lia | reflexivity].
Qed.








End PriceFacts.



(** Claim C9. [parsePrice("Booking.com ₹12,345 per night")] is
    [{currency: "₹", value: 12345}] (the thousands separator is dropped),
    and [parsePrice("no price here")] is [null]. *)
Theorem parse_price_examples :
  parseCurrencyPrice (str "Booking.com " ++ 8377%Z :: str "12,345 per night") =
    Some ([8377%Z], Qmake 12345 1) /\
  parseCurrencyPrice (str "no price here") = None.
Proof. split; vm_compute; reflexivity. Qed.

(** Claim C10. The currency codes are matched case-insensitively and the
    currency is the matched text as written: ["usd 100"] gives currency
    ["usd"] and value 100. *)
Theorem parse_price_lowercase_code :
  parseCurrencyPrice (str "usd 100") = Some (str "usd", Qmake 100 1).
Proof. vm_compute. reflexivity. Qed.

(* ================================================================== *)
(** * Provider resolution *)

(** Claim C6 fails on [long_row]: the first line is rejected by the length
    test and no brand occurs in the text, yet the provider pushed is that
    61-character first line, not ["Unknown"]: [providerName || "Unknown"]
    only replaces an empty name. *)
Theorem provider_long_first_line_kept :
  parseCurrencyPrice long_row = Some (str "$", Qmake 100 1) /\
  List.length (trim (first_line long_row)) = 61%nat /\
  forallb (fun b => negb (includes (toLowerCase long_row) (toLowerCase b))) brands = true /\
  resolve_provider long_row = repeat 120%Z 61 /\
  resolve_provider long_row <> str "Unknown".
Proof. repeat split; vm_compute; try reflexivity; discriminate. Qed.

(* ================================================================== *)
(** * Releasing the browser *)

Module OrchestratorFacts.
Import Orchestrator.

(** Claim C8 fails when [page.goto] rejects: [findLowestPrice] throws with
    the browser still open, while the sibling path where opening a result
    fails closes the browser before throwing, and so does normal
    completion. *)
Theorem goto_failure_leaks_browser :
  findLowestPrice 0 1749945600000 (str "Paris") None goto_fails false = (Thrown, true) /\
  findLowestPrice 0 1749945600000 (str "Paris") None link_count_fails false = (Thrown, false) /\
  snd (findLowestPrice 0 1749945600000 (str "Paris") None all_ok false) = false.
Proof.
  repeat split; vm_compute; reflexivity.
Qed.

End OrchestratorFacts.

(* ================================================================== *)
(** * Deduplication by provider *)

Lemma Qle_bool_true a b : Qle_bool a b = true <-> (a <= b)%Q.
Proof. apply Qle_bool_iff. Qed.

Lemma Qle_bool_false a b : Qle_bool a b = false <-> (b < a)%Q.
Proof.
  split; intros H.
  - apply Qnot_le_lt. intros Hle. apply Qle_bool_iff in Hle. congruence.
  - destruct (Qle_bool a b) eqn:E; auto. apply Qle_bool_iff in E. lra.
Qed.

(** Split every [Qle_bool] test of the goal and turn it into an order fact. *)
Ltac split_price_tests :=
  repeat match goal with
         | |- context [Qle_bool ?a ?b] =>
             let E := fresh "E" in
             destruct (Qle_bool a b) eqn:E;
             [apply Qle_bool_true in E | apply Qle_bool_false in E];
             cbn [negb] in *
         | _ : context [Qle_bool ?a ?b] |- _ =>
             let E := fresh "E" in
             destruct (Qle_bool a b) eqn:E;
             [apply Qle_bool_true in E | apply Qle_bool_false in E];
             cbn [negb] in *
         end.

Section AggregateFacts.
Local Open Scope Q_scope.

Lemma hd_insert x l :
  hd_error (insert x l) =
    match hd_error l with
    | None => Some x
    | Some y => if Qle_bool (price_value x) (price_value y) then Some x else Some y
    end.
Proof. destruct l as [|y l]; simpl; auto. destruct (Qle_bool _ _); reflexivity. Qed.

(** The [reduce] of line 238 finds the head of the stable sort. *)
Lemma fold_min_step_hd_sort l m :
  Some (fold_left min_step l m) = hd_error (sort (m :: l)).
Proof.
  revert m. induction l as [|x l IH]; intros m; [reflexivity|].
  simpl fold_left. rewrite IH. simpl sort. rewrite !hd_insert.
  destruct (hd_error (sort l)) as [y|]; unfold min_step, Qltb;
    split_price_tests; try reflexivity; exfalso; lra.
Qed.

Lemma lowest_of_hd_sort d : lowest_of d = hd_error (sort d).
Proof.
  destruct d as [|d0 d]; [reflexivity|]. unfold lowest_of.
  simpl fold_left. rewrite fold_min_step_hd_sort.
  unfold min_step, Qltb. split_price_tests; [reflexivity | exfalso; lra].
Qed.

Lemma insert_sorted x l : sorted_by_price l -> sorted_by_price (insert x l).
Proof.
  induction l as [|y l IH]; simpl; auto.
  intros Hl. split_price_tests.
  - simpl. split; auto.
  - destruct l as [|z l]; simpl in *.
    + split; auto. lra.
    + destruct Hl as [Hyz Hl]. specialize (IH Hl). revert IH. simpl.
      split_price_tests; simpl; intros; split; auto; lra.
Qed.

Lemma sort_sorted l : sorted_by_price (sort l).
Proof. induction l; simpl; auto using insert_sorted. Qed.

Lemma sort_of_sorted l : sorted_by_price l -> sort l = l.
Proof.
  induction l as [|x l IH]; simpl; auto. intros Hl.
  destruct l as [|y l]; [reflexivity|].
  destruct Hl as [Hxy Hl]. rewrite IH by exact Hl. simpl.
  split_price_tests; [reflexivity | exfalso; lra].
Qed.

Lemma insert_perm x l : Permutation (insert x l) (x :: l).
Proof.
  induction l as [|y l IH]; simpl; auto.
  destruct (Qle_bool _ _); auto.
  eapply perm_trans; [apply perm_skip, IH | apply perm_swap].
Qed.

Lemma sort_perm l : Permutation (sort l) l.
Proof.
  induction l as [|x l IH]; simpl; auto.
  eapply perm_trans; [apply insert_perm | apply perm_skip, IH].
Qed.

End AggregateFacts.

Section MapFacts.
Local Open Scope Q_scope.

Lemma jeqb_spec a b : reflect (a = b) (jeqb a b).
Proof. unfold jeqb. destruct (list_eq_dec Z.eq_dec a b); constructor; auto. Qed.

Lemma existsb_jeqb k ks : existsb (jeqb k) ks = true <-> In k ks.
Proof.
  rewrite existsb_exists. split.
  - intros [k' [Hin Hk]]. destruct (jeqb_spec k k'); [subst; auto | discriminate].
  - intros Hin. exists k. split; auto. destruct (jeqb_spec k k); congruence.
Qed.

Lemma first_keys_aux_In seen l k :
  In k (first_keys_aux seen l) <-> ~ In k seen /\ exists p, In p l /\ key p = k.
Proof.
  revert seen. induction l as [|p l IH]; intros seen; simpl.
  - split; [tauto | intros [_ [p [[] _]]]].
  - destruct (existsb (jeqb (key p)) seen) eqn:Hs.
    + apply existsb_jeqb in Hs. rewrite IH. split.
      * intros [Hn [p' [Hp' Hk]]]. split; eauto.
      * intros [Hn [p' [[<- | Hp'] Hk]]]; [subst; contradiction | eauto].
    + assert (Hns : ~ In (key p) seen) by (rewrite <- existsb_jeqb; congruence).
      simpl. rewrite IH. simpl. split.
      * intros [<- | [Hn [p' [Hp' Hk]]]]; [split; eauto | split; [tauto | eauto]].
      * intros [Hn [p' [[<- | Hp'] Hk]]]; [left; auto|].
        destruct (jeqb_spec (key p) k) as [E | NE]; [left; auto | right; split; [tauto | eauto]].
Qed.

Lemma first_keys_aux_NoDup seen l : NoDup (first_keys_aux seen l).
Proof.
  revert seen. induction l as [|p l IH]; intros seen; simpl; [constructor|].
  destruct (existsb _ seen); auto.
  constructor; auto. rewrite first_keys_aux_In. simpl. tauto.
Qed.

Lemma first_keys_NoDup l : NoDup (first_keys l).
Proof. apply first_keys_aux_NoDup. Qed.

Lemma first_keys_In l k : In k (first_keys l) <-> exists p, In p l /\ key p = k.
Proof. unfold first_keys. rewrite first_keys_aux_In. simpl. tauto. Qed.

Lemma first_keys_aux_app seen l x :
  first_keys_aux seen (l ++ [x]) =
    first_keys_aux seen l ++
    (if existsb (jeqb (key x)) (seen ++ first_keys_aux seen l) then [] else [key x]).
Proof.
  revert seen. induction l as [|p l IH]; intros seen; simpl.
  - rewrite app_nil_r. destruct (existsb _ seen); reflexivity.
  - destruct (existsb (jeqb (key p)) seen) eqn:Hs; rewrite IH; auto.
    simpl. f_equal. f_equal. rewrite !existsb_app. simpl.
    destruct (existsb (jeqb (key x)) seen), (jeqb (key x) (key p)); reflexivity.
Qed.

Lemma first_keys_app l x :
  first_keys (l ++ [x]) =
    first_keys l ++ (if existsb (jeqb (key x)) (first_keys l) then [] else [key x]).
Proof. unfold first_keys. rewrite first_keys_aux_app. reflexivity. Qed.

Lemma first_min_None g : first_min g = None <-> g = [].
Proof.
  split; [|intros ->; reflexivity].
  destruct g as [|x g]; simpl; auto. destruct (first_min g); [destruct (Qle_bool _ _)|]; discriminate.
Qed.

(** Appending a quote to a group: it replaces the kept one only when
    strictly cheaper. *)
Lemma first_min_app g x :
  first_min (g ++ [x]) =
    match first_min g with
    | None => Some x
    | Some y => if Qltb (price_value x) (price_value y) then Some x else Some y
    end.
Proof.
  induction g as [|a g IH]; [reflexivity|]. simpl. rewrite IH.
  destruct (first_min g) as [y|]; unfold Qltb; split_price_tests; try reflexivity; exfalso; lra.
Qed.

Lemma group_app k l x :
  group k (l ++ [x]) = group k l ++ (if jeqb (key x) k then [x] else []).
Proof. unfold group. rewrite filter_app. simpl. destruct (jeqb _ _); reflexivity. Qed.

Lemma group_key k l p : In p (group k l) -> key p = k.
Proof. unfold group. rewrite filter_In. intros [_ H]. destruct (jeqb_spec (key p) k); congruence. Qed.

Lemma group_nil k l : group k l = [] <-> ~ In k (first_keys l).
Proof.
  rewrite first_keys_In. unfold group. split.
  - intros H [p [Hp Hk]]. assert (In p (filter (fun p => jeqb (key p) k) l)) as Hin.
    { apply filter_In. split; auto. destruct (jeqb_spec (key p) k); congruence. }
    rewrite H in Hin. destruct Hin.
  - intros H. destruct (filter _ l) as [|p g] eqn:E; auto. exfalso. apply H.
    assert (Hin : In p (filter (fun p => jeqb (key p) k) l)) by (rewrite E; left; auto).
    apply filter_In in Hin as [Hp Hk]. exists p. split; auto.
    destruct (jeqb_spec (key p) k); congruence.
Qed.

Lemma first_min_In g p : first_min g = Some p -> In p g.
Proof.
  revert p. induction g as [|x g IH]; simpl; intros p H; [discriminate|].
  destruct (first_min g) as [y|]; [destruct (Qle_bool _ _)|];
    injection H as <-; auto.
Qed.

End MapFacts.

Section ByProvider.
Local Open Scope Q_scope.

Lemma entries_ext G G' ks :
  (forall k, In k ks -> G k = G' k) -> entries G ks = entries G' ks.
Proof.
  induction ks as [|k ks IH]; simpl; intros H; auto.
  rewrite H by auto. f_equal. apply IH. auto.
Qed.

Lemma entries_app G ks ks' : entries G (ks ++ ks') = entries G ks ++ entries G ks'.
Proof. unfold entries. apply flat_map_app. Qed.

Lemma map_get_entries G ks k :
  map_get (entries G ks) k = if existsb (jeqb k) ks then G k else None.
Proof.
  induction ks as [|k' ks IH]; simpl; auto.
  destruct (G k') as [v|] eqn:Gk'; simpl.
  - destruct (jeqb_spec k' k) as [<- | NE].
    + destruct (jeqb_spec k' k'); [auto | congruence].
    + rewrite IH. destruct (jeqb_spec k k'); [congruence | reflexivity].
  - rewrite IH. destruct (jeqb_spec k k') as [-> | NE]; simpl.
    + rewrite Gk'. destruct (existsb _ _); reflexivity.
    + reflexivity.
Qed.

Lemma map_set_entries_in G ks k v :
  NoDup ks -> In k ks -> (forall k', In k' ks -> G k' <> None) ->
  map_set (entries G ks) k v = entries (fun k' => if jeqb k' k then Some v else G k') ks.
Proof.
  induction ks as [|k' ks IH]; intros Hnd Hin Hall; [destruct Hin|].
  inversion Hnd as [|? ? Hk' Hnd']; subst.
  simpl. destruct (G k') as [w|] eqn:Gk'; [|exfalso; apply (Hall k'); [left; reflexivity | exact Gk']].
  simpl. destruct (jeqb_spec k' k) as [<- | NE].
  - simpl app. f_equal. apply entries_ext. intros k'' Hk''.
    destruct (jeqb_spec k'' k'); [subst; contradiction | reflexivity].
  - simpl app. f_equal. apply IH; [exact Hnd' | destruct Hin; [congruence | auto] |].
    intros k2 Hk2. apply Hall. right. exact Hk2.
Qed.

Lemma map_set_entries_notin G ks k v :
  ~ In k ks -> (forall k', In k' ks -> G k' <> None) ->
  map_set (entries G ks) k v = entries G ks ++ [(k, v)].
Proof.
  induction ks as [|k' ks IH]; intros Hin Hall; [reflexivity|].
  simpl. destruct (G k') as [w|] eqn:Gk'; [|exfalso; apply (Hall k'); [left; reflexivity | exact Gk']].
  simpl. destruct (jeqb_spec k' k) as [<- | NE]; [exfalso; apply Hin; left; auto|].
  f_equal. apply IH; [intros H; apply Hin; right; exact H |].
  intros k2 Hk2. apply Hall. right. exact Hk2.
Qed.

Lemma kept_present l k : In k (first_keys l) -> first_min (group k l) <> None.
Proof.
  intros Hk H. apply first_min_None in H. apply group_nil in H. contradiction.
Qed.

(** The Map built by the loop of lines 229-234: one entry per provider
    key, in first-seen order, holding the first-seen cheapest quote. *)
Lemma byProvider_of_entries l :
  byProvider_of l = entries (fun k => first_min (group k l)) (first_keys l).
Proof.
  induction l as [|x l IH] using rev_ind; [reflexivity|].
  unfold byProvider_of in *. rewrite fold_left_app, IH. simpl fold_left.
  unfold dedup_step. rewrite map_get_entries, first_keys_app.
  destruct (existsb (jeqb (key x)) (first_keys l)) eqn:Hin.
  - apply existsb_jeqb in Hin as Hin'. rewrite app_nil_r.
    destruct (first_min (group (key x) l)) as [y|] eqn:Gy;
      [|exfalso; eapply kept_present; eauto].
    destruct (Qltb (price_value x) (price_value y)) eqn:Hlt.
    + rewrite map_set_entries_in by (auto using first_keys_NoDup, kept_present).
      apply entries_ext. intros k Hk. rewrite group_app.
      destruct (jeqb_spec k (key x)) as [-> | NE].
      * destruct (jeqb_spec (key x) (key x)); [|congruence].
        rewrite first_min_app, Gy, Hlt. reflexivity.
      * destruct (jeqb_spec (key x) k); [congruence|]. rewrite app_nil_r. reflexivity.
    + apply entries_ext. intros k Hk. rewrite group_app.
      destruct (jeqb_spec (key x) k) as [<- | NE].
      * rewrite first_min_app, Gy, Hlt. reflexivity.
      * rewrite app_nil_r. reflexivity.
  - assert (Hn : ~ In (key x) (first_keys l)) by (rewrite <- existsb_jeqb; congruence).
    assert (Gn : first_min (group (key x) l) = None)
      by (apply first_min_None, group_nil; exact Hn).
    cbn iota. rewrite map_set_entries_notin by (auto using kept_present).
    rewrite entries_app. f_equal.
    + apply entries_ext. intros k Hk. rewrite group_app.
      destruct (jeqb_spec (key x) k) as [<- | NE]; [contradiction|].
      rewrite app_nil_r. reflexivity.
    + simpl. rewrite group_app. destruct (jeqb_spec (key x) (key x)); [|congruence].
      rewrite first_min_app, Gn. reflexivity.
Qed.

Lemma values_entries G ks :
  values (entries G ks) = flat_map (fun k => option_list (G k)) ks.
Proof.
  induction ks as [|k ks IH]; simpl; auto.
  destruct (G k); simpl; rewrite <- IH; reflexivity.
Qed.

Lemma values_byProvider_of l : values (byProvider_of l) = kept_by_provider l.
Proof. rewrite byProvider_of_entries, values_entries. reflexivity. Qed.

Lemma kept_by_provider_keys l : map key (kept_by_provider l) = first_keys l.
Proof.
  unfold kept_by_provider.
  assert (H : forall k, In k (first_keys l) ->
            exists v, first_min (group k l) = Some v /\ key v = k).
  { intros k Hk. destruct (first_min (group k l)) as [v|] eqn:Gv;
      [|exfalso; eapply kept_present; eauto].
    exists v. split; auto. apply (group_key k l), first_min_In, Gv. }
  induction (first_keys l) as [|k ks IH]; simpl; auto.
  destruct (H k (or_introl eq_refl)) as [v [-> Hv]]. simpl. rewrite Hv, IH; auto.
  intros k' Hk'. apply H. right. exact Hk'.
Qed.

Lemma map_get_pairs_notin s k :
  ~ In k (map key s) -> map_get (map (fun p => (key p, p)) s) k = None.
Proof.
  induction s as [|p s IH]; simpl; intros Hn; auto.
  destruct (jeqb_spec (key p) k); [exfalso; auto | apply IH; auto].
Qed.

Lemma map_set_pairs_notin s k v :
  ~ In k (map key s) ->
  map_set (map (fun p => (key p, p)) s) k v = map (fun p => (key p, p)) s ++ [(k, v)].
Proof.
  induction s as [|p s IH]; simpl; intros Hn; auto.
  destruct (jeqb_spec (key p) k); [exfalso; auto | f_equal; apply IH; auto].
Qed.

(** Quotes with pairwise distinct keys are all kept, in their order. *)
Lemma byProvider_of_distinct s :
  NoDup (map key s) -> byProvider_of s = map (fun p => (key p, p)) s.
Proof.
  induction s as [|x s IH] using rev_ind; intros Hnd; [reflexivity|].
  rewrite map_app in Hnd. simpl in Hnd.
  apply NoDup_remove in Hnd as [Hnd Hx]. rewrite app_nil_r in Hnd.
  assert (Hx' : ~ In (key x) (map key s)) by (intros H; apply Hx, in_or_app; left; exact H).
  unfold byProvider_of in *. rewrite fold_left_app, IH by exact Hnd. simpl.
  unfold dedup_step. rewrite map_get_pairs_notin, map_set_pairs_notin by exact Hx'.
  rewrite map_app. reflexivity.
Qed.

End ByProvider.

(** Claim C1 as stated: with the kept quotes sorted stably from their
    encounter order, [A100; B50; A50] would give [B50; A50] with lowest
    [B50]. The code gives [A50; B50] with lowest [A50]: the Map keeps each
    provider at the position where it was first seen, even when a later
    quote replaces its value. *)
Lemma aggregate_tie_by_first_seen_provider :
  aggregate [qA100; qB50; qA50] = ([qA50; qB50], Some qA50) /\
  aggregate_spec_encounter [qA100; qB50; qA50] = ([qB50; qA50], Some qB50) /\
  aggregate [qA100; qB50; qA50] <> aggregate_spec_encounter [qA100; qB50; qA50].
Proof.
  split; [vm_compute; reflexivity|]. split; [vm_compute; reflexivity|].
  vm_compute. intros H. discriminate H.
Qed.

(** Claim C1 (amended). For every list of quotes, the aggregation groups
    the quotes by trimmed provider name (an empty name counting as
    "Unknown"), keeps in each group the cheapest quote (the first seen on
    ties), lists the kept quotes in the order in which their provider was
    first seen, sorts them stably by ascending amount, and reports the first
    of the sorted list as the lowest (none for an empty list). On
    [A100; B90; A80] this gives [A80; B90] with lowest [A80]. *)
Theorem aggregate_by_provider_order l :
  aggregate l = aggregate_spec_by_provider l /\
  aggregate [qA100; qB90; qA80] = ([qA80; qB90], Some qA80) /\
  aggregate [] = ([], None).
Proof.
  split; [|split; vm_compute; reflexivity].
  unfold aggregate, aggregate_spec_by_provider.
  rewrite lowest_of_hd_sort, values_byProvider_of. reflexivity.
Qed.

(** Claim C7. Aggregation is idempotent: aggregating the deduplicated,
    sorted output again gives the same deduplicated list and the same
    lowest quote. *)
Theorem aggregate_idempotent l : aggregate (fst (aggregate l)) = aggregate l.
Proof.
  unfold aggregate at 2. cbn [fst].
  set (d := values (byProvider_of l)).
  assert (Hkeys : NoDup (map key (sort d))).
  { eapply Permutation_NoDup; [apply Permutation_map, Permutation_sym, sort_perm|].
    subst d. rewrite values_byProvider_of, kept_by_provider_keys. apply first_keys_NoDup. }
  unfold aggregate. rewrite byProvider_of_distinct by exact Hkeys.
  unfold values. rewrite map_map. simpl. rewrite map_id.
  rewrite !lowest_of_hd_sort, (sort_of_sorted (sort d)) by apply sort_sorted.
  reflexivity.
Qed.

(* ================================================================== *)
(** * Formatting dates: [fmtDate] *)


Section CalendarFacts.

Lemma Day_split x r : 0 <= r < msPerDay -> Day (x * msPerDay + r) = x.
Proof. unfold Day, msPerDay. intros. Z.div_mod_to_equations. lia. Qed.

Lemma InLeapYear_cases y : InLeapYear y = 0 \/ InLeapYear y = 1.
Proof. unfold InLeapYear. pose proof (DaysInYear_bounds y). lia. Qed.

Lemma DayFromYear_succ' y : DayFromYear (y + 1) = DayFromYear y + 365 + InLeapYear y.
Proof. pose proof (DayFromYear_succ y). unfold InLeapYear. lia. Qed.

Lemma MakeDay_in_year y m d :
  0 <= m <= 11 -> MakeDay y m d = DayFromYear y + month_start m (InLeapYear y) + d - 1.
Proof.
  intros Hm. unfold MakeDay. rewrite Z.div_small, Z.mod_small by lia.
  rewrite Z.add_0_r. reflexivity.
Qed.

Lemma Day_bounds_year t :
  DayFromYear (YearFromTime t) <= Day t < DayFromYear (YearFromTime t + 1).
Proof.
  pose proof (YearFromTime_spec t) as H. set (Y := YearFromTime t) in *.
  set (A := DayFromYear Y) in *. set (B := DayFromYear (Y + 1)) in *.
  unfold TimeFromYear, Day, msPerDay in *. fold A B in H. Z.div_mod_to_equations. lia.
Qed.

Lemma DayFromYear_range y : 0 <= y <= 10000 -> -800000 <= DayFromYear y <= 3000000.
Proof. intros. unfold DayFromYear. Z.div_mod_to_equations. lia. Qed.

End CalendarFacts.

Ltac month_cases m :=
  let H := fresh "Hm" in
  assert (H : m = 0 \/ m = 1 \/ m = 2 \/ m = 3 \/ m = 4 \/ m = 5 \/ m = 6 \/ m = 7 \/
              m = 8 \/ m = 9 \/ m = 10 \/ m = 11) by lia;
  destruct H as [->|[->|[->|[->|[->|[->|[->|[->|[->|[->|[->| ->]]]]]]]]]]].

(** Evaluate the [month_start] table entries and month tests on closed
    arguments, everywhere. *)
Ltac calc_months :=
  repeat match goal with
         | |- context [month_start ?a ?b] =>
             let v := eval vm_compute in (month_start a b) in change (month_start a b) with v
         | H : context [month_start ?a ?b] |- _ =>
             let v := eval vm_compute in (month_start a b) in change (month_start a b) with v in H
         | |- context [Z.eqb ?a ?b] =>
             let v := eval vm_compute in (Z.eqb a b) in change (Z.eqb a b) with v
         | H : context [Z.eqb ?a ?b] |- _ =>
             let v := eval vm_compute in (Z.eqb a b) in change (Z.eqb a b) with v in H
         end; cbv beta iota in *.

Ltac resolve_ltb :=
  repeat match goal with |- context [?a <? ?b] => destruct (Z.ltb_spec a b) end.

Section MonthFacts.

(** The date [d] of the 0-based month [m] of the year [y], at any time
    of that day, has that year, month and date. *)
Lemma ymd_of_time y m d r :
  0 <= m <= 11 -> 1 <= d ->
  month_start m (InLeapYear y) + d <=
    (if m =? 11 then 365 + InLeapYear y else month_start (m + 1) (InLeapYear y)) ->
  0 <= r < msPerDay ->
  YearFromTime (MakeDay y m d * msPerDay + r) = y /\
  MonthFromTime (MakeDay y m d * msPerDay + r) = m /\
  DateFromTime (MakeDay y m d * msPerDay + r) = d.
Proof.
  intros Hm Hd Hend Hr.
  rewrite MakeDay_in_year by exact Hm.
  pose proof (DayFromYear_succ' y) as Hsucc. pose proof (InLeapYear_cases y) as Hl.
  set (l := InLeapYear y) in *.
  set (t := (DayFromYear y + month_start m l + d - 1) * msPerDay + r).
  assert (Hin : 0 <= month_start m l /\ month_start m l + d - 1 < 365 + l)
    by (clearbody l; month_cases m; destruct Hl as [-> | ->]; calc_months; lia).
  assert (HD : Day t = DayFromYear y + month_start m l + d - 1) by (apply Day_split; exact Hr).
  assert (HY : YearFromTime t = y).
  { apply YearFromTime_unique. unfold t, TimeFromYear. rewrite Hsucc.
    unfold msPerDay in *. lia. }
  assert (HW : DayWithinYear t = month_start m l + d - 1)
    by (unfold DayWithinYear; rewrite HY, HD; lia).
  assert (HM : MonthFromTime t = m).
  { unfold MonthFromTime. cbv zeta. rewrite HW, HY. fold l.
    clearbody l. month_cases m; destruct Hl as [-> | ->]; calc_months; resolve_ltb; lia. }
  split; [exact HY | split; [exact HM |]].
  unfold DateFromTime. rewrite HM, HW, HY. fold l. lia.
Qed.

(** Every time value falls on a date [DateFromTime] of a month
    [MonthFromTime] of its year, and [MakeDay] gives its day back. *)
Lemma time_ymd t :
  0 <= MonthFromTime t <= 11 /\ 1 <= DateFromTime t /\
  month_start (MonthFromTime t) (InLeapYear (YearFromTime t)) + DateFromTime t <=
    (if MonthFromTime t =? 11 then 365 + InLeapYear (YearFromTime t)
     else month_start (MonthFromTime t + 1) (InLeapYear (YearFromTime t))) /\
  MakeDay (YearFromTime t) (MonthFromTime t) (DateFromTime t) = Day t.
Proof.
  pose proof (Day_bounds_year t) as HB.
  pose proof (DayFromYear_succ' (YearFromTime t)) as Hsucc.
  pose proof (InLeapYear_cases (YearFromTime t)) as Hl.
  assert (HW : 0 <= DayWithinYear t < 365 + InLeapYear (YearFromTime t))
    by (unfold DayWithinYear; lia).
  assert (HM : 0 <= MonthFromTime t <= 11 /\
               month_start (MonthFromTime t) (InLeapYear (YearFromTime t)) <= DayWithinYear t /\
               DayWithinYear t < (if MonthFromTime t =? 11 then 365 + InLeapYear (YearFromTime t)
                                  else month_start (MonthFromTime t + 1) (InLeapYear (YearFromTime t)))).
  { unfold MonthFromTime. cbv zeta.
    set (w := DayWithinYear t) in *. set (l := InLeapYear (YearFromTime t)) in *.
    clearbody l. destruct Hl as [-> | ->]; resolve_ltb; calc_months; lia. }
  unfold DateFromTime.
  set (M := MonthFromTime t) in *. set (w := DayWithinYear t) in *.
  set (l := InLeapYear (YearFromTime t)) in *.
  split; [lia|]. split; [lia|]. split; [lia|].
  rewrite MakeDay_in_year by lia. fold l. unfold w, DayWithinYear. lia.
Qed.

End MonthFacts.

Section FmtDateFacts.

Lemma iso_date_no_T y m d : forallb (fun c => negb (c =? 84)) (iso_date y m d) = true.
Proof.
  assert (D : forall w n, forallb (fun c => negb (c =? 84)) (digits w n) = true)
    by (intros; apply digit_no_T, digits_is_digit).
  unfold iso_date, year_string.
  rewrite forallb_app. cbn [forallb]. rewrite forallb_app. cbn [forallb]. rewrite !D.
  destruct ((0 <=? y) && (y <=? 9999)); [rewrite D; reflexivity|].
  cbn [forallb]. rewrite D. destruct (y <? 0); reflexivity.
Qed.

(** [fmtDate] of a valid date is its UTC [YYYY-MM-DD] part. *)
Lemma fmtDate_iso t :
  Z.abs t <= 8640000000000000 ->
  fmtDate t = Some (iso_date (YearFromTime t) (MonthFromTime t) (DateFromTime t)).
Proof.
  intros Ht. unfold fmtDate, toISOString.
  destruct (Z.ltb_spec 8640000000000000 (Z.abs t)); [lia|]. cbn [option_map].
  f_equal. apply take_while_app_stop; [apply iso_date_no_T | reflexivity].
Qed.

Lemma month_start_bound m l : 0 <= l <= 1 -> 0 <= month_start m l <= 335.
Proof.
  intros Hl. unfold month_start.
  set (tbl := [0; 31; 59; 90; 120; 151; 181; 212; 243; 273; 304; 334]).
  assert (H : 0 <= nth (Z.to_nat m) tbl 0 <= 334).
  { destruct (nth_in_or_default (Z.to_nat m) tbl 0) as [Hin | ->]; [|lia].
    revert Hin. generalize (nth (Z.to_nat m) tbl 0). intros x Hin.
    unfold tbl in Hin. simpl in Hin. intuition lia. }
  destruct (2 <=? m); lia.
Qed.

Lemma MakeDay_range y m d :
  0 <= y <= 9999 -> 0 <= m <= 11 -> 1 <= d <= 31 -> -800000 <= MakeDay y m d <= 3001000.
Proof.
  intros Hy Hm Hd. rewrite MakeDay_in_year by exact Hm.
  pose proof (DayFromYear_range y ltac:(lia)).
  pose proof (month_start_bound m (InLeapYear y)) as Hms.
  pose proof (InLeapYear_cases y). lia.
Qed.

(** [new Date] reads back the date [fmtDate] prints, at UTC midnight. *)
Lemma parse_date_fmtDate t :
  0 <= YearFromTime t <= 9999 ->
  exists s, fmtDate t = Some s /\ parse_date s = Some (t - t mod msPerDay).
Proof.
  intros Hy. destruct (time_ymd t) as (HM & HD1 & Hend & HMD).
  pose proof (YearFromTime_spec t) as HT.
  pose proof (InLeapYear_cases (YearFromTime t)) as Hl.
  set (y := YearFromTime t) in *. set (M := MonthFromTime t) in *.
  set (D := DateFromTime t) in *.
  assert (Hb : Z.abs t <= 8640000000000000).
  { pose proof (DayFromYear_range y ltac:(lia)). pose proof (DayFromYear_range (y + 1) ltac:(lia)).
    unfold TimeFromYear, msPerDay in HT. lia. }
  assert (HD31 : D <= 31).
  { clear - HM Hend Hl HD1. pose proof (month_start_bound M (InLeapYear y)).
    clearbody M D. destruct Hl as [L | L]; rewrite L in *; month_cases M; calc_months; lia. }
  rewrite fmtDate_iso by exact Hb. fold y M D. eexists. split; [reflexivity|].
  unfold iso_date, year_string.
  replace ((0 <=? y) && (y <=? 9999)) with true
    by (symmetry; apply andb_true_iff; split; apply Z.leb_le; lia).
  pose proof (digits_length 4 y) as L1. pose proof (digits_is_digit 4 y) as G1.
  pose proof (digit_val_digits 4 y) as V1.
  pose proof (digits_length 2 (M + 1)) as L2. pose proof (digits_is_digit 2 (M + 1)) as G2.
  pose proof (digit_val_digits 2 (M + 1)) as V2.
  pose proof (digits_length 2 D) as L3. pose proof (digits_is_digit 2 D) as G3.
  pose proof (digit_val_digits 2 D) as V3.
  change (10 ^ Z.of_nat 4) with 10000 in V1. change (10 ^ Z.of_nat 2) with 100 in V2, V3.
  rewrite Z.mod_small in V1, V2, V3 by lia.
  destruct (digits 4 y) as [|a1 [|a2 [|a3 [|a4 [|? ?]]]]]; try discriminate L1.
  destruct (digits 2 (M + 1)) as [|b1 [|b2 [|? ?]]]; try discriminate L2.
  destruct (digits 2 D) as [|c1 [|c2 [|? ?]]]; try discriminate L3.
  cbn [app]. unfold parse_date. cbv beta iota zeta.
  change [a1; a2; a3; a4; b1; b2; c1; c2] with ([a1; a2; a3; a4] ++ [b1; b2] ++ [c1; c2]).
  rewrite !forallb_app, G1, G2, G3. cbn [andb].
  rewrite V1, V2, V3. replace (M + 1 - 1) with M by lia.
  match goal with |- (if ?c then _ else _) = _ => destruct c eqn:Hc end.
  - f_equal. rewrite HMD. unfold Day. rewrite Z.mod_eq by (unfold msPerDay; lia). lia.
  - exfalso. revert Hc. apply not_false_iff_true.
    repeat rewrite andb_true_iff. rewrite !Z.leb_le. lia.
Qed.

End FmtDateFacts.

(** [new Date] after [fmtDate]: for every time value of a year 0..9999,
    [fmtDate] prints a string that [new Date] reads back as the UTC
    midnight of the same UTC day. *)
Theorem new_Date_after_fmtDate t :
  0 <= YearFromTime t <= 9999 ->
  exists s, fmtDate t = Some s /\ parse_date s = Some (t - t mod msPerDay).
Proof. apply parse_date_fmtDate. Qed.

Lemma new_Date_after_fmtDate_witness :
  (0 <= YearFromTime 1749945612345 <= 9999) /\
  exists s, fmtDate 1749945612345 = Some s /\
            parse_date s = Some (1749945612345 - 1749945612345 mod msPerDay).
Proof.
  assert (H : 0 <= YearFromTime 1749945612345 <= 9999)
    by (vm_compute; split; intros E; discriminate E).
  split; [exact H | exact (new_Date_after_fmtDate _ H)].
Defined.

(** The December-10 fallback of line 51 is a local midnight, and
    [fmtDate] prints the UTC date: east of UTC (positive offset, below one
    day) the check-in is printed as December 9; at UTC or west of it, as
    December 10. *)
Theorem fallback_checkin_printed_utc tz y :
  100 <= y <= 9999 -> - msPerDay < tz < msPerDay ->
  fmtDate (new_Date_local tz y 11 10) = Some (iso_date y 11 (if 0 <? tz then 9 else 10)).
Proof.
  intros Hy Htz. unfold new_Date_local. cbv zeta.
  replace ((0 <=? y) && (y <=? 99)) with false
    by (symmetry; apply andb_false_iff; right; apply Z.leb_gt; lia).
  pose proof (InLeapYear_cases y) as Hl.
  assert (Hend : forall d, d <= 31 ->
            month_start 11 (InLeapYear y) + d <=
            (if 11 =? 11 then 365 + InLeapYear y else month_start (11 + 1) (InLeapYear y)))
    by (intros d Hd; destruct Hl as [L | L]; rewrite L; calc_months; lia).
  pose proof (MakeDay_range y 11 9 ltac:(lia) ltac:(lia) ltac:(lia)) as B9.
  pose proof (MakeDay_range y 11 10 ltac:(lia) ltac:(lia) ltac:(lia)) as B10.
  assert (E : MakeDay y 11 10 = MakeDay y 11 9 + 1) by (rewrite !MakeDay_in_year by lia; lia).
  destruct (Z.ltb_spec 0 tz) as [Hpos | Hneg].
  - replace (MakeDay y 11 10 * msPerDay - tz) with (MakeDay y 11 9 * msPerDay + (msPerDay - tz))
      by (rewrite E; lia).
    destruct (ymd_of_time y 11 9 (msPerDay - tz) ltac:(lia) ltac:(lia) (Hend 9 ltac:(lia))
                ltac:(lia)) as (E1 & E2 & E3).
    rewrite fmtDate_iso by (unfold msPerDay in *; lia). rewrite E1, E2, E3. reflexivity.
  - replace (MakeDay y 11 10 * msPerDay - tz) with (MakeDay y 11 10 * msPerDay + - tz) by lia.
    destruct (ymd_of_time y 11 10 (- tz) ltac:(lia) ltac:(lia) (Hend 10 ltac:(lia))
                ltac:(lia)) as (E1 & E2 & E3).
    rewrite fmtDate_iso by (unfold msPerDay in *; lia). rewrite E1, E2, E3. reflexivity.
Qed.

Lemma fallback_checkin_printed_utc_witness :
  (100 <= 2025 <= 9999 /\ - msPerDay < 19800000 < msPerDay) /\
  fmtDate (new_Date_local 19800000 2025 11 10) = Some (str "2025-12-09").
Proof.
  assert (H1 : 100 <= 2025 <= 9999) by lia.
  assert (H2 : - msPerDay < 19800000 < msPerDay) by (unfold msPerDay; lia).
  split; [split; [exact H1 | exact H2]|].
  rewrite (fallback_checkin_printed_utc 19800000 2025 H1 H2). vm_compute. reflexivity.
Defined.


(* ================================================================== *)
(** * Auto-pick: the shift *)

(** The backward shift of lines 56-60 is the smallest whole number of days
    that brings the check-out back to December 31, 00:00 local time: the
    shifted check-out is at most that instant and less than one day
    before it. *)
Theorem auto_pick_shift_lands_before_dec31 tz now :
  shifted (auto_pick tz now) = true ->
  new_Date_local tz (getFullYear tz now) 11 31 - msPerDay < trace_out (auto_pick tz now) <=
    new_Date_local tz (getFullYear tz now) 11 31.
Proof.
  unfold auto_pick. cbv beta zeta.
  set (lastDay := new_Date_local tz (getFullYear tz now) 11 31).
  set (inDate1 := if negb _ then _ else _).
  destruct (Z.ltb_spec lastDay (inDate1 + 5 * msPerDay)) as [Hlt | Hge];
    cbn [shifted trace_out]; [intros _ | discriminate].
  pose proof (ceil_div_bounds (inDate1 + 5 * msPerDay - lastDay) ltac:(lia)) as Hc.
  set (c := ceil_div _ msPerDay) in *. unfold msPerDay in *. lia.
Qed.

Lemma auto_pick_shift_lands_before_dec31_witness :
  shifted (auto_pick 0 1765800000000) = true /\
  new_Date_local 0 (getFullYear 0 1765800000000) 11 31 - msPerDay <
    trace_out (auto_pick 0 1765800000000) <=
    new_Date_local 0 (getFullYear 0 1765800000000) 11 31.
Proof.
  assert (H : shifted (auto_pick 0 1765800000000) = true) by (vm_compute; reflexivity).
  split; [exact H | exact (auto_pick_shift_lands_before_dec31 0 1765800000000 H)].
Defined.

(* ================================================================== *)
(** * Price parsing, provider names, aggregation and the whole run *)



Section PriceMatch.

Lemma match_ci_spec pat s m r :
  match_ci pat s = Some (m, r) -> map canon m = map canon pat /\ s = m ++ r.
Proof.
  revert s m r. induction pat as [|p pat IH]; intros s m r H; simpl in H.
  - injection H as <- <-. auto.
  - destruct s as [|c s]; [discriminate|].
    destruct (Z.eqb_spec (canon c) (canon p)) as [E|]; [|discriminate].
    destruct (match_ci pat s) as [[m' r']|] eqn:Hm; [|discriminate].
    injection H as <- <-. destruct (IH _ _ _ Hm) as [H1 H2]. simpl. rewrite E, H1, H2. auto.
Qed.

Lemma first_success_In alts cur num :
  first_success alts = Some (cur, num) -> exists r, In (cur, r) alts /\ match_number r = Some num.
Proof.
  induction alts as [|[c r] alts IH]; simpl; intros H; [discriminate|].
  destruct (match_number r) as [n|] eqn:Hn.
  - injection H as <- <-. eauto.
  - destruct (IH H) as [r' [Hin Hr']]. eauto.
Qed.

Lemma codes_canon : forall code, In code currency_codes -> map canon code = code.
Proof. intros code H. repeat (destruct H as [<- | H]; [reflexivity|]). destruct H. Qed.

Lemma currency_alternatives_In s cur r :
  In (cur, r) (currency_alternatives s) ->
  s = cur ++ r /\ ((exists u, cur = [u] /\ In u currency_symbols) \/ In (map canon cur) currency_codes).
Proof.
  unfold currency_alternatives. intros H. apply in_app_or in H as [H | H].
  - destruct s as [|c s]; [destruct H|].
    destruct (existsb (Z.eqb c) currency_symbols) eqn:E; [|destruct H].
    destruct H as [H | []]. injection H as <- <-. split; [reflexivity|].
    left. exists c. split; [reflexivity|]. apply existsb_exists in E as [u [Hu Eu]].
    apply Z.eqb_eq in Eu. subst. exact Hu.
  - apply in_flat_map in H as [code [Hc Hm]].
    destruct (match_ci code s) as [[m' r']|] eqn:E; [|destruct Hm].
    destruct Hm as [Hm | []]. injection Hm as <- <-.
    destruct (match_ci_spec _ _ _ _ E) as [H1 H2]. split; [exact H2|].
    right. rewrite H1, codes_canon by exact Hc. exact Hc.
Qed.

Lemma search_spec s cur num :
  search s = Some (cur, num) ->
  exists pre r, s = pre ++ cur ++ r /\
    ((exists u, cur = [u] /\ In u currency_symbols) \/ In (map canon cur) currency_codes) /\
    match_number r = Some num.
Proof.
  induction s as [|c s IH]; intros H.
  - unfold search, match_at in H. simpl in H. discriminate.
  - cbn [search] in H. destruct (match_at (c :: s)) as [m|] eqn:E.
    + injection H as ->. apply first_success_In in E as [r [Hin Hr]].
      apply currency_alternatives_In in Hin as [Hs Hc]. exists [], r. auto.
    + destruct (IH H) as [pre [r [Hs [Hc Hr]]]]. exists (c :: pre), r.
      rewrite Hs. auto.
Qed.

Lemma drop_ws_suffix s : exists p, s = p ++ drop_ws s.
Proof.
  induction s as [|c s [p Hp]]; simpl; [exists []; reflexivity|].
  destruct (is_ws c); [exists (c :: p); rewrite Hp at 1; reflexivity | exists []; reflexivity].
Qed.

Lemma match_number_digit r num :
  match_number r = Some num -> exists d, In d r /\ is_digit d = true.
Proof.
  unfold match_number. destruct (drop_ws_suffix r) as [p Hp].
  destruct (drop_ws r) as [|d rest] eqn:E; [discriminate|].
  destruct (is_digit d) eqn:Hd; [|discriminate]. intros _. exists d. split; auto.
  rewrite Hp. apply in_or_app. right. left. reflexivity.
Qed.

End PriceMatch.

(** [parseCurrencyPrice] takes the currency from the text as written:
    when it returns [{currency: c, value: v}], [c] occurs in the text and is
    either one of the five currency symbols or one of the five currency
    codes in any letter case; and [v] is never negative (the number pattern
    has no sign). *)
Theorem parse_price_currency_from_text text c v :
  parseCurrencyPrice text = Some (c, v) ->
  (exists pre post, text = pre ++ c ++ post) /\
  ((exists u, c = [u] /\ In u currency_symbols) \/ In (map canon c) currency_codes) /\
  (0 <= v)%Q.
Proof.
  unfold parseCurrencyPrice. destruct (search text) as [[cur num]|] eqn:E; [|discriminate].
  intros H. injection H as <- <-.
  destruct (search_spec _ _ _ E) as [pre [r [Hs [Hc _]]]].
  split; [exists pre, r; exact Hs|]. split; [exact Hc | apply parseFloat_nonneg].
Qed.

Lemma parse_price_currency_from_text_witness :
  parseCurrencyPrice (str "Booking.com " ++ 8377 :: str "12,345 per night") =
    Some ([8377], Qmake 12345 1) /\
  (exists pre post, str "Booking.com " ++ 8377 :: str "12,345 per night" = pre ++ [8377] ++ post) /\
  ((exists u, [8377] = [u] /\ In u currency_symbols) \/ In (map canon [8377]) currency_codes) /\
  (0 <= Qmake 12345 1)%Q.
Proof.
  assert (H : parseCurrencyPrice (str "Booking.com " ++ 8377 :: str "12,345 per night") =
                Some ([8377], Qmake 12345 1)) by (vm_compute; reflexivity).
  split; [exact H | exact (parse_price_currency_from_text _ _ _ H)].
Defined.

(** A text with no ASCII digit never yields a price: the number of the
    pattern must start with [[0-9]]. *)
Theorem parse_price_needs_digit text :
  forallb (fun c => negb (is_digit c)) text = true -> parseCurrencyPrice text = None.
Proof.
  intros Hn. unfold parseCurrencyPrice.
  destruct (search text) as [[cur num]|] eqn:E; [|reflexivity]. exfalso.
  destruct (search_spec _ _ _ E) as [pre [r [Hs [_ Hr]]]].
  destruct (match_number_digit _ _ Hr) as [d [Hin Hd]].
  rewrite forallb_forall in Hn. specialize (Hn d).
  rewrite Hd in Hn. discriminate Hn. rewrite Hs. apply in_or_app. right. apply in_or_app. right. exact Hin.
Qed.

Lemma parse_price_needs_digit_witness :
  forallb (fun c => negb (is_digit c)) (str "USD EUR $ per night") = true /\
  parseCurrencyPrice (str "USD EUR $ per night") = None.
Proof.
  assert (H : forallb (fun c => negb (is_digit c)) (str "USD EUR $ per night") = true)
    by (vm_compute; reflexivity).
  split; [exact H | exact (parse_price_needs_digit _ H)].
Defined.

Section Commas.

Lemma digit_not_ws d : is_digit d = true -> is_ws d = false.
Proof.
  unfold is_digit. intros Hd. apply andb_true_iff in Hd as [H1 H2].
  apply Z.leb_le in H1. apply Z.leb_le in H2. unfold is_ws. simpl.
  repeat match goal with |- context [Z.eqb d ?n] =>
    destruct (Z.eqb_spec d n); [lia|]; cbn [orb] end. reflexivity.
Qed.

Lemma digit_not_comma d : is_digit d = true -> (d =? 44) = false.
Proof.
  unfold is_digit. intros Hd. apply andb_true_iff in Hd as [H1 _].
  apply Z.leb_le in H1. apply Z.eqb_neq. lia.
Qed.

Lemma digit_comma_num_unit l :
  forallb (fun x => is_digit x || (x =? 44)) l = true -> forallb is_num_unit l = true.
Proof.
  induction l as [|a l IH]; simpl; auto. intros H.
  apply andb_true_iff in H as [Ha Hl]. rewrite IH by exact Hl.
  unfold is_num_unit. rewrite Ha. reflexivity.
Qed.

Lemma remove_commas_digits l :
  forallb (fun x => is_digit x || (x =? 44)) l = true -> forallb is_digit (remove_commas l) = true.
Proof.
  unfold remove_commas. induction l as [|a l IH]; simpl; auto. intros H.
  apply andb_true_iff in H as [Ha Hl].
  destruct (Z.eqb_spec a 44); simpl; [auto|]. rewrite IH by exact Hl.
  destruct (is_digit a); [reflexivity | discriminate Ha].
Qed.

End Commas.

Lemma parse_symbol_digits_commas u d l rest :
  In u currency_symbols -> is_digit d = true ->
  forallb (fun x => is_digit x || (x =? 44)) l = true ->
  match rest with [] => True | x :: _ => is_num_unit x = false end ->
  parseCurrencyPrice (u :: d :: l ++ rest) = Some ([u], parseFloat (d :: remove_commas l)).
Proof.
  intros Hu Hd Hl Hr.
  assert (Hnum : take_while is_num_unit (l ++ rest) = l).
  { pose proof (digit_comma_num_unit l Hl) as Hn.
    destruct rest as [|x rest]; [rewrite app_nil_r; apply take_while_all, Hn|].
    apply take_while_app_stop; assumption. }
  assert (Hm : match_at (u :: d :: l ++ rest) = Some ([u], d :: l)).
  { unfold match_at, currency_alternatives.
    replace (existsb (Z.eqb u) currency_symbols) with true
      by (symmetry; apply existsb_exists; exists u; split; [exact Hu | apply Z.eqb_refl]).
    cbn [app first_success]. unfold match_number. cbn [drop_ws].
    rewrite digit_not_ws, Hd, Hnum by exact Hd. reflexivity. }
  unfold parseCurrencyPrice. cbn [search]. rewrite Hm.
  unfold remove_commas at 1. cbn [filter]. rewrite digit_not_comma by exact Hd. cbn [negb].
  fold (remove_commas l). reflexivity.
Qed.

Lemma digits_digit_or_comma l :
  forallb is_digit l = true -> forallb (fun x => is_digit x || (x =? 44)) l = true.
Proof.
  induction l as [|a l IH]; simpl; auto. intros H.
  apply andb_true_iff in H as [Ha Hl]. rewrite Ha, IH by exact Hl. reflexivity.
Qed.

(** A currency symbol directly followed by digits and commas (and then
    the end of the text or a character that cannot continue the number)
    gives that symbol and the value [parseFloat] reads from the digits
    with every comma dropped, wherever the commas stand: the same result
    as the text with its commas removed. *)
Theorem parse_price_drops_commas u d l rest :
  In u currency_symbols -> is_digit d = true ->
  forallb (fun x => is_digit x || (x =? 44)) l = true ->
  match rest with [] => True | x :: _ => is_num_unit x = false end ->
  parseCurrencyPrice (u :: d :: l ++ rest) = Some ([u], parseFloat (d :: remove_commas l)) /\
  parseCurrencyPrice (u :: d :: l ++ rest) = parseCurrencyPrice (u :: d :: remove_commas l ++ rest).
Proof.
  intros Hu Hd Hl Hr.
  pose proof (remove_commas_digits l Hl) as Hdig.
  rewrite (parse_symbol_digits_commas u d l rest Hu Hd Hl Hr).
  rewrite (parse_symbol_digits_commas u d (remove_commas l) rest Hu Hd
             (digits_digit_or_comma _ Hdig) Hr).
  rewrite (remove_commas_id (remove_commas l)) by (apply forallb_digit_no_comma, Hdig).
  split; reflexivity.
Qed.

Lemma parse_price_drops_commas_witness :
  (In 8377 currency_symbols /\ is_digit 49 = true /\
   forallb (fun x => is_digit x || (x =? 44)) [50; 44; 51; 52; 53] = true /\
   is_num_unit 32 = false) /\
  parseCurrencyPrice (8377 :: 49 :: [50; 44; 51; 52; 53] ++ str " per night") =
    Some ([8377], parseFloat (49 :: remove_commas [50; 44; 51; 52; 53])) /\
  parseCurrencyPrice (8377 :: 49 :: [50; 44; 51; 52; 53] ++ str " per night") =
    parseCurrencyPrice (8377 :: 49 :: remove_commas [50; 44; 51; 52; 53] ++ str " per night").
Proof.
  split; [split; [simpl; tauto | split; [reflexivity | split; reflexivity]]|].
  apply parse_price_drops_commas; [simpl; tauto | reflexivity | reflexivity | reflexivity].
Defined.

Section TrimFacts.

Lemma drop_ws_cases s : drop_ws s = [] \/ exists c r, drop_ws s = c :: r /\ is_ws c = false.
Proof.
  induction s as [|c s IH]; simpl; [auto|].
  destruct (is_ws c) eqn:E; [exact IH | right; eauto].
Qed.

Lemma drop_ws_idem s : drop_ws (drop_ws s) = drop_ws s.
Proof.
  destruct (drop_ws_cases s) as [-> | [c [r [-> Hc]]]]; [reflexivity|].
  simpl. rewrite Hc. reflexivity.
Qed.

Lemma drop_ws_snoc l c : is_ws c = false -> exists l', drop_ws (l ++ [c]) = l' ++ [c].
Proof.
  intros Hc. induction l as [|a l IH]; simpl.
  - rewrite Hc. exists []. reflexivity.
  - destruct (is_ws a); [exact IH | exists (a :: l); reflexivity].
Qed.

Lemma drop_ws_In s x : In x (drop_ws s) -> In x s.
Proof. induction s as [|c s IH]; simpl; auto. destruct (is_ws c); simpl; auto. Qed.

Lemma trim_In s x : In x (trim s) -> In x s.
Proof. unfold trim. intros H. apply in_rev, drop_ws_In, in_rev, drop_ws_In in H. exact H. Qed.

(** A string with no white space at either end is its own trim. *)
Lemma trim_of_trimmed u : drop_ws u = u /\ drop_ws (rev u) = rev u -> trim u = u.
Proof. intros [H1 H2]. unfold trim. rewrite H1, H2, rev_involutive. reflexivity. Qed.

Lemma trim_trimmed s : drop_ws (trim s) = trim s /\ drop_ws (rev (trim s)) = rev (trim s).
Proof.
  unfold trim. rewrite rev_involutive, drop_ws_idem. split; [|reflexivity].
  destruct (drop_ws_cases s) as [-> | [c [r [-> Hc]]]]; [reflexivity|].
  simpl rev. destruct (drop_ws_snoc (rev r) c Hc) as [l' ->].
  rewrite rev_app_distr. simpl. rewrite Hc. reflexivity.
Qed.

Lemma trim_idem s : trim (trim s) = trim s.
Proof. apply trim_of_trimmed, trim_trimmed. Qed.

Lemma take_while_In f s x : In x (take_while f s) -> In x s /\ f x = true.
Proof.
  induction s as [|c s IH]; simpl; [tauto|].
  destruct (f c) eqn:E; simpl; [|tauto]. intros [<- | H]; [auto | destruct (IH H); auto].
Qed.

Lemma brand_loop_cases text bs p : brand_loop text bs p = p \/ In (brand_loop text bs p) bs.
Proof.
  induction bs as [|b bs IH]; simpl; [auto|].
  destruct (includes _ _); [right; left; reflexivity | destruct IH; auto].
Qed.

Lemma brands_trim : forall b, In b brands -> trim b = b /\ truthy b = true /\ ~ In 10 b.
Proof.
  intros b H. repeat (destruct H as [<- | H]; [vm_compute; split; [reflexivity | split; [reflexivity | intuition discriminate]]|]).
  destruct H.
Qed.

End TrimFacts.

(** The provider pushed for a row (line 219) is never empty, contains no
    line feed, and is already its own deduplication key: trimming it and
    replacing an empty name by ["Unknown"] (line 230) change nothing. *)
Theorem provider_is_own_key text v c u :
  truthy (resolve_provider text) = true /\ ~ In 10 (resolve_provider text) /\
  key (mkQuote (resolve_provider text) v c u text) = resolve_provider text.
Proof.
  assert (Hp : trim (providerName_of text) = providerName_of text /\ ~ In 10 (providerName_of text)).
  { assert (H0 : trim (trim (first_line text)) = trim (first_line text) /\ ~ In 10 (trim (first_line text))).
    { split; [apply trim_idem|]. intros H. apply trim_In, take_while_In in H as [_ H]. discriminate H. }
    unfold providerName_of. destruct (_ || _); [|exact H0].
    destruct (brand_loop_cases text brands (trim (first_line text))) as [-> | Hb]; [exact H0|].
    destruct (brands_trim _ Hb) as [H1 [_ H3]]. auto. }
  unfold key. cbn [provider]. unfold resolve_provider.
  destruct (truthy (providerName_of text)) eqn:E.
  - rewrite E. destruct Hp. auto.
  - vm_compute. split; [reflexivity | split; [intuition discriminate | reflexivity]].
Qed.

Section AggregateMin.
Local Open Scope Q_scope.

Lemma first_min_le g q : first_min g = Some q -> forall p, In p g -> price_value q <= price_value p.
Proof.
  revert q. induction g as [|x g IH]; simpl; intros q H p Hp; [destruct Hp|].
  destruct (first_min g) as [y|] eqn:E.
  - specialize (IH y eq_refl).
    destruct (Qle_bool (price_value x) (price_value y)) eqn:Hle; injection H as <-.
    + apply Qle_bool_true in Hle. destruct Hp as [<- | Hp]; [lra|]. specialize (IH p Hp). lra.
    + apply Qle_bool_false in Hle. destruct Hp as [<- | Hp]; [lra | auto].
  - injection H as <-. apply first_min_None in E. subst. destruct Hp as [<- | []]. lra.
Qed.

Lemma kept_by_provider_In l q : In q (kept_by_provider l) -> In q l.
Proof.
  unfold kept_by_provider. intros H. apply in_flat_map in H as [k [_ Hq]].
  destruct (first_min (group k l)) as [y|] eqn:E; [|destruct Hq].
  destruct Hq as [<- | []]. apply first_min_In in E. unfold group in E.
  apply filter_In in E as [E _]. exact E.
Qed.

Lemma kept_by_provider_covers l p :
  In p l -> exists q, In q (kept_by_provider l) /\ key q = key p /\ price_value q <= price_value p.
Proof.
  intros Hp. assert (Hk : In (key p) (first_keys l)) by (apply first_keys_In; eauto).
  destruct (first_min (group (key p) l)) as [q|] eqn:E; [|exfalso; eapply kept_present; eauto].
  exists q. split; [|split].
  - unfold kept_by_provider. apply in_flat_map. exists (key p). split; [exact Hk|].
    rewrite E. left. reflexivity.
  - apply (group_key (key p) l), first_min_In, E.
  - apply (first_min_le _ _ E). unfold group. apply filter_In. split; [exact Hp|].
    destruct (jeqb_spec (key p) (key p)); congruence.
Qed.

Lemma sorted_hd_le l x :
  sorted_by_price l -> hd_error l = Some x -> forall y, In y l -> price_value x <= price_value y.
Proof.
  revert x. induction l as [|a l IH]; simpl; intros x Hs Hx y Hy; [discriminate|].
  injection Hx as <-. destruct Hy as [<- | Hy]; [lra|].
  destruct l as [|b l]; [destruct Hy|]. destruct Hs as [Hab Hs].
  specialize (IH b Hs eq_refl y Hy). lra.
Qed.

Lemma first_keys_aux_length seen l : (List.length (first_keys_aux seen l) <= List.length l)%nat.
Proof.
  revert seen. induction l as [|p l IH]; intros seen; simpl; [lia|].
  destruct (existsb _ seen); simpl; [specialize (IH seen) | specialize (IH (key p :: seen))]; lia.
Qed.

Lemma aggregate_kept l : aggregate l = (sort (kept_by_provider l), hd_error (sort (kept_by_provider l))).
Proof. unfold aggregate. rewrite lowest_of_hd_sort, values_byProvider_of. reflexivity. Qed.

End AggregateMin.

(** [lowest] is [null] exactly when no quote was collected; otherwise it
    is one of the collected quotes and no collected quote is cheaper. *)
Theorem aggregate_lowest_is_minimum l :
  (snd (aggregate l) = None <-> l = []) /\
  (forall q, snd (aggregate l) = Some q ->
     In q l /\ forall p, In p l -> (price_value q <= price_value p)%Q).
Proof.
  rewrite aggregate_kept. cbn [snd].
  pose proof (sort_perm (kept_by_provider l)) as Hperm.
  split.
  - split; [|intros ->; reflexivity].
    intros H. destruct l as [|p l]; [reflexivity|]. exfalso.
    destruct (kept_by_provider_covers (p :: l) p (or_introl eq_refl)) as [q [Hq _]].
    apply (Permutation_in _ (Permutation_sym Hperm)) in Hq.
    destruct (sort (kept_by_provider (p :: l))); [destruct Hq | discriminate].
  - intros q Hq. split.
    + apply kept_by_provider_In. apply (Permutation_in _ Hperm).
      destruct (sort _) as [|x s]; [discriminate|]. injection Hq as ->. left. reflexivity.
    + intros p Hp. destruct (kept_by_provider_covers l p Hp) as [q' [Hq' [_ Hle]]].
      apply (Permutation_in _ (Permutation_sym Hperm)) in Hq'.
      pose proof (sorted_hd_le _ _ (sort_sorted _) Hq q' Hq'). lra.
Qed.

(** [all_providers] is sorted by ascending price, holds one quote per
    provider key, holds only collected quotes, and for every collected
    quote holds one of the same provider that is at most as expensive. *)
Theorem aggregate_providers_shape l :
  sorted_by_price (fst (aggregate l)) /\
  NoDup (map key (fst (aggregate l))) /\
  (forall q, In q (fst (aggregate l)) -> In q l) /\
  (forall p, In p l -> exists q, In q (fst (aggregate l)) /\
     key q = key p /\ (price_value q <= price_value p)%Q).
Proof.
  rewrite aggregate_kept. cbn [fst].
  pose proof (sort_perm (kept_by_provider l)) as Hperm.
  split; [apply sort_sorted|]. split; [|split].
  - eapply Permutation_NoDup; [apply Permutation_map, Permutation_sym, Hperm|].
    rewrite kept_by_provider_keys. apply first_keys_NoDup.
  - intros q Hq. apply kept_by_provider_In, (Permutation_in _ Hperm), Hq.
  - intros p Hp. destruct (kept_by_provider_covers l p Hp) as [q [Hq H]].
    exists q. split; [apply (Permutation_in _ (Permutation_sym Hperm)), Hq | exact H].
Qed.

Module RunFacts.
Import Orchestrator.

Lemma rows_loop_spec fuel i acc w s :
  exists ps, rows_loop i fuel acc w s = (Ret (acc ++ ps), s) /\ (List.length ps <= fuel)%nat /\
    forall q, In q ps -> url q = None /\
      parseCurrencyPrice (raw_text q) = Some (currency q, price_value q) /\
      provider q = resolve_provider (raw_text q).
Proof.
  revert i acc. induction fuel as [|fuel IH]; intros i acc.
  - exists []. rewrite app_nil_r. split; [reflexivity | split; [simpl; lia | intros q []]].
  - cbn [rows_loop]. cbv [bind try_ try_catch innerText ret throw].
    destruct (rejects w (RowInnerText i)).
    + destruct (IH (S i) acc) as [ps [H1 [H2 H3]]]. exists ps. rewrite H1. split; auto.
    + destruct (negb (truthy (inner_text w i))).
      * destruct (IH (S i) acc) as [ps [H1 [H2 H3]]]. exists ps. rewrite H1. split; auto.
      * destruct (parseCurrencyPrice (inner_text w i)) as [[cur v]|] eqn:Hp.
        -- destruct (IH (S i) (acc ++ [mkQuote (resolve_provider (inner_text w i)) v cur None (inner_text w i)]))
             as [ps [H1 [H2 H3]]].
           eexists. rewrite H1, <- app_assoc. split; [reflexivity|]. split; [simpl; lia|].
           intros q [<- | Hq]; [simpl; auto | auto].
        -- destruct (IH (S i) acc) as [ps [H1 [H2 H3]]]. exists ps. rewrite H1. split; auto.
Qed.


(** A computation that never changes the state. *)
Lemma pres_call o w s : snd (call o w s) = s.
Proof. unfold call. destruct (rejects w o); reflexivity. Qed.

Lemma pres_count o w s : snd (count o w s) = s.
Proof. unfold count. destruct (rejects w o); reflexivity. Qed.

Lemma pres_bind {A B} (m : M A) (k : A -> M B) :
  (forall w s, snd (m w s) = s) -> (forall a w s, snd (k a w s) = s) ->
  forall w s, snd (bind m k w s) = s.
Proof.
  intros Hm Hk w s. unfold bind. specialize (Hm w s).
  destruct (m w s) as [[a|] s']; cbn [snd] in *; subst; auto.
Qed.

Lemma pres_when b m : (forall w s, snd (m w s) = s) -> forall w s, snd (when b m w s) = s.
Proof. destruct b; simpl; auto. Qed.

Lemma pres_throw {A} w s : snd ((@throw A) w s) = s.
Proof. reflexivity. Qed.

Create HintDb pres.
#[local] Hint Resolve pres_call pres_count pres_when pres_throw : pres.
#[local] Hint Extern 1 (forall w s, snd (bind _ _ w s) = s) => apply pres_bind : pres.
#[local] Hint Extern 1 (forall a w s, snd (_ w s) = s) => intros ? : pres.
#[local] Hint Extern 2 (forall w s, snd (_ w s) = s) => intros ? ? : pres.

Lemma bind_try_pres {B} (m : M unit) (k : unit -> M B) w s :
  (forall w s, snd (m w s) = s) -> bind (try_ m) k w s = k tt w s.
Proof.
  intros Hm. specialize (Hm w s). unfold bind, try_, try_catch, ret.
  destruct (m w s) as [[[]|] s']; cbn [snd] in Hm; subst; reflexivity.
Qed.

Lemma bind_launch {B} (k : unit -> M B) w s :
  bind launch k w s = if rejects w Launch then (Thrown, s) else k tt w true.
Proof. unfold bind, launch. destruct (rejects w Launch); reflexivity. Qed.

Lemma bind_call {B} o (k : unit -> M B) w s :
  bind (call o) k w s = if rejects w o then (Thrown, s) else k tt w s.
Proof. unfold bind, call. destruct (rejects w o); reflexivity. Qed.

Lemma bind_count {B} o (k : Z -> M B) w s :
  bind (count o) k w s = if rejects w o then (Thrown, s) else k (count_of w o) w s.
Proof. unfold bind, count. destruct (rejects w o); reflexivity. Qed.

(** The block of lines 124-133: on failure the browser is closed (unless
    [browser.close()] itself rejects) and the error is thrown. *)
Lemma bind_open_result {B} (k : unit -> M B) w s :
  bind (try_catch
          (n <- count FiveStarLinkCount ;;
           if negb (n =? 0) then call FiveStarLinkClick else call FirstLinkClick)
          (close ;;; throw)) k w s =
  if rejects w FiveStarLinkCount then (Thrown, if rejects w Close then s else false)
  else if negb (count_of w FiveStarLinkCount =? 0)
  then (if rejects w FiveStarLinkClick then (Thrown, if rejects w Close then s else false)
        else k tt w s)
  else (if rejects w FirstLinkClick then (Thrown, if rejects w Close then s else false)
        else k tt w s).
Proof.
  unfold bind, try_catch, count, call, close, throw.
  destruct (rejects w Close), (rejects w FiveStarLinkCount); try reflexivity.
  all: destruct (negb _); [destruct (rejects w FiveStarLinkClick) | destruct (rejects w FirstLinkClick)];
    reflexivity.
Qed.

Ltac run_steps :=
  repeat (first [ rewrite bind_launch | rewrite bind_call | rewrite bind_count
                | rewrite bind_open_result
                | rewrite bind_try_pres by (auto 10 with pres) ]; cbv beta).

Ltac rows_step :=
  match goal with
  | |- context [bind (rows_loop ?i ?n ?acc) ?k ?w ?s] =>
      let ps := fresh "ps" in let E := fresh "E" in
      let Hlen := fresh "Hlen" in let Hps := fresh "Hps" in
      destruct (rows_loop_spec n i acc w s) as [ps [E [Hlen Hps]]];
      replace (bind (rows_loop i n acc) k w s) with (k ([] ++ ps) w s)
        by (unfold bind; rewrite E; reflexivity);
      cbv beta; rewrite app_nil_l;
      let sorted := fresh "sorted" in let low := fresh "low" in let Ea := fresh "Ea" in
      destruct (aggregate ps) as [sorted low] eqn:Ea; cbv [bind close ret];
      let Hcl := fresh "Hcl" in destruct (rejects w Close) eqn:Hcl
  end.

Ltac run_cases :=
  repeat match goal with
         | |- context [if rejects ?w ?o then _ else _] =>
             let H := fresh "Hr" in destruct (rejects w o) eqn:H
         | |- context [if negb ?c then _ else _] =>
             let H := fresh "Hc" in destruct (negb c) eqn:H
         end.

Lemma run_unfold tz now city ck w s :
  findLowestPrice tz now city ck w s =
  match withinThisYearFiveNights tz now ck with
  | Err _ => (Thrown, s)
  | Ok (i, o) =>
      if rejects w Launch then (Thrown, s)
      else if rejects w NewContext then (Thrown, true)
      else if rejects w NewPage then (Thrown, true)
      else if rejects w Goto then (Thrown, true)
      else if rejects w Wait1 then (Thrown, true)
      else if rejects w FiveStarLinkCount
      then (if rejects w Close then (Thrown, true) else (Thrown, false))
      else if (if negb (count_of w FiveStarLinkCount =? 0)
               then rejects w FiveStarLinkClick else rejects w FirstLinkClick)
      then (if rejects w Close then (Thrown, true) else (Thrown, false))
      else if rejects w Wait2 then (Thrown, true)
      else if rejects w Wait3 then (Thrown, true)
      else if rejects w RowsCount then (Thrown, true)
      else
        (providers <- rows_loop 0 (Z.to_nat (Z.min (count_of w RowsCount) 80)) [] ;;
         let '(sorted, low) := aggregate providers in
         close ;;;
         ret {| query_city := city; checkin := i; checkout := o;
                lowest := low; all_providers := sorted |}) w true
  end.
Proof.
  unfold findLowestPrice. destruct (withinThisYearFiveNights tz now ck) as [[i o]|e]; [|reflexivity].
  run_steps. destruct (rejects w Launch), (rejects w NewContext), (rejects w NewPage),
    (rejects w Goto), (rejects w Wait1), (rejects w FiveStarLinkCount); try reflexivity.
  all: destruct (rejects w Close); try reflexivity.
  all: destruct (negb _); reflexivity.
Qed.

(** Whenever [findLowestPrice] returns a result, the browser is closed. *)
Theorem run_returns_closed tz now city ck w s r s' :
  findLowestPrice tz now city ck w s = (Ret r, s') -> s' = false.
Proof.
  rewrite run_unfold. destruct (withinThisYearFiveNights tz now ck) as [[i o]|e]; [|congruence].
  run_cases; try congruence. all: rows_step; congruence.
Qed.

Lemma run_returns_closed_witness :
  (exists r s', findLowestPrice 0 1749945600000 (str "Paris") None all_ok true = (Ret r, s')) /\
  snd (findLowestPrice 0 1749945600000 (str "Paris") None all_ok true) = false.
Proof.
  destruct (findLowestPrice 0 1749945600000 (str "Paris") None all_ok true) as [[r|] s'] eqn:E;
    [| vm_compute in E; discriminate E].
  split; [eauto | exact (run_returns_closed _ _ _ _ _ _ _ _ E)].
Defined.

(** A run that starts with no browser and ends with the browser open has
    thrown, and one of the awaited calls made outside any [try] after the
    launch ([newContext], [newPage], [goto], the three [waitForTimeout]
    calls, [rows.count]) or one of the two [browser.close()] calls
    (line 131 or 241) rejected. *)
Theorem run_leaves_open_only_unguarded tz now city ck w o :
  findLowestPrice tz now city ck w false = (o, true) ->
  o = Thrown /\
  exists op, In op [NewContext; NewPage; Goto; Wait1; Wait2; Wait3; RowsCount; Close] /\ rejects w op = true.
Proof.
  rewrite run_unfold. destruct (withinThisYearFiveNights tz now ck) as [[i o']|e]; [|congruence].
  run_cases; intros H; try discriminate H.
  all: try (revert H; rows_step; intros H; try discriminate H).
  all: injection H as <-; split; [reflexivity|].
  all: match goal with Hx : rejects _ ?op = true |- _ =>
         exists op; split; [simpl; tauto | exact Hx] end.
Qed.

Lemma run_leaves_open_only_unguarded_witness :
  findLowestPrice 0 1749945600000 (str "Paris") None goto_fails false = (Thrown, true) /\
  (@Thrown run_result = Thrown /\
   exists op, In op [NewContext; NewPage; Goto; Wait1; Wait2; Wait3; RowsCount; Close] /\
     rejects goto_fails op = true).
Proof.
  assert (H : findLowestPrice 0 1749945600000 (str "Paris") None goto_fails false = (Thrown, true))
    by (vm_compute; reflexivity).
  split; [exact H | exact (run_leaves_open_only_unguarded _ _ _ _ _ _ H)].
Defined.

(** A returned result lists at most 80 quotes (the row cap of line 167),
    sorted by price with one per provider key, and reports the first of them
    as [lowest]; every listed quote has no [url] (the [href] lookup always
    fails), carries the currency and value [parseCurrencyPrice] reads from
    its [raw_text], and the provider resolved from that text. *)
Theorem run_result_shape tz now city ck w s r :
  findLowestPrice tz now city ck w s = (Ret r, false) ->
  (List.length (all_providers r) <= 80)%nat /\
  lowest r = hd_error (all_providers r) /\
  sorted_by_price (all_providers r) /\
  NoDup (map key (all_providers r)) /\
  (forall q, In q (all_providers r) ->
     url q = None /\
     parseCurrencyPrice (raw_text q) = Some (currency q, price_value q) /\
     provider q = resolve_provider (raw_text q)).
Proof.
  rewrite run_unfold. destruct (withinThisYearFiveNights tz now ck) as [[i o]|e]; [|congruence].
  run_cases; intros H; try discriminate H.
  all: revert H; rows_step; intros H; try discriminate H.
  all: injection H as <-; cbn [all_providers lowest].
  all: rewrite aggregate_kept in Ea; injection Ea as <- <-.
  all: pose proof (sort_perm (kept_by_provider ps)) as Hperm.
  all: split; [|split; [reflexivity | split; [apply sort_sorted | split]]].
  all: try (eapply Permutation_NoDup; [apply Permutation_map, Permutation_sym, Hperm|];
            rewrite kept_by_provider_keys; apply first_keys_NoDup).
  all: try (intros q Hq; apply Hps, kept_by_provider_In, (Permutation_in _ Hperm), Hq).
  all: rewrite (Permutation_length Hperm), <- (length_map key), kept_by_provider_keys.
  all: pose proof (first_keys_aux_length [] ps); unfold first_keys; lia.
Qed.

Lemma run_result_shape_witness :
  exists r, findLowestPrice 0 1749945600000 (str "Paris") None all_ok false = (Ret r, false) /\
    (List.length (all_providers r) <= 80)%nat /\ lowest r = hd_error (all_providers r).
Proof.
  destruct (findLowestPrice 0 1749945600000 (str "Paris") None all_ok false) as [[r|] s'] eqn:E;
    [| vm_compute in E; discriminate E].
  destruct s'; [vm_compute in E; discriminate E|].
  exists r. split; [reflexivity|].
  destruct (run_result_shape _ _ _ _ _ _ _ E) as [H1 [H2 _]]. auto.
Defined.

(** With a valid stay window, a run in which the launch, the unguarded
    calls and [browser.close()] succeed, and neither way of opening a
    result rejects, returns a
    result for the requested city and that window, with the browser
    closed; the guarded steps (cookie banner, filters, sorting, rating,
    price comparison) may fail freely. *)
Theorem run_succeeds tz now city ck w s i o :
  withinThisYearFiveNights tz now ck = Ok (i, o) ->
  forallb (fun op => negb (rejects w op))
    [Launch; NewContext; NewPage; Goto; Wait1; FiveStarLinkCount; FiveStarLinkClick;
     FirstLinkClick; Wait2; Wait3; RowsCount; Close] = true ->
  exists r, findLowestPrice tz now city ck w s = (Ret r, false) /\
    query_city r = city /\ checkin r = i /\ checkout r = o.
Proof.
  intros Hw Hok. rewrite run_unfold, Hw. cbn [forallb] in Hok.
  repeat match type of Hok with
         | (negb ?b && _) = true => destruct b eqn:?; [discriminate Hok|]; cbn [negb andb] in Hok
         end.
  destruct (negb _). all: rows_step; try congruence; eexists; split; [reflexivity | auto].
Qed.

Lemma run_succeeds_witness :
  (withinThisYearFiveNights 0 1749945600000 None = Ok (1751241600000, 1751673600000) /\
   forallb (fun op => negb (rejects all_ok op))
     [Launch; NewContext; NewPage; Goto; Wait1; FiveStarLinkCount; FiveStarLinkClick;
      FirstLinkClick; Wait2; Wait3; RowsCount; Close] = true) /\
  exists r, findLowestPrice 0 1749945600000 (str "Paris") None all_ok false = (Ret r, false) /\
    query_city r = str "Paris" /\ checkin r = 1751241600000 /\ checkout r = 1751673600000.
Proof.
  assert (H1 : withinThisYearFiveNights 0 1749945600000 None = Ok (1751241600000, 1751673600000))
    by (vm_compute; reflexivity).
  assert (H2 : forallb (fun op => negb (rejects all_ok op))
     [Launch; NewContext; NewPage; Goto; Wait1; FiveStarLinkCount; FiveStarLinkClick;
      FirstLinkClick; Wait2; Wait3; RowsCount; Close] = true) by reflexivity.
  split; [split; [exact H1 | exact H2] | exact (run_succeeds _ _ _ _ _ false _ _ H1 H2)].
Defined.

End RunFacts.
